(** * Wavelet: the ledger execution core and the peer protocol handlers

    A shallow embedding of
    - the [wavelet] package's [state] (applyTransaction, doApplyTransaction,
      LoadAccount, SaveAccount), and
    - the [node] package's protocol block (the sync, query and gossip
      handlers),
    with the properties of the specification stated over them. *)

From Stdlib Require Import NArith ZArith Ascii String List Lia.
From Stdlib.Strings Require Import Byte.
From stdpp Require Import base option list strings gmap fin_maps.

Local Open Scope string_scope.
Local Open Scope list_scope.

(** ** Package wavelet: the ledger state *)

Module wavelet.

(** Go's [[]byte] and [string] are both byte sequences; [writeString] casts
    the first to the second without copying. *)
Abbreviation bytes := string (only parsing).

Definition writeString (b : bytes) : string := b.

(** [merge(a, b)] concatenates byte slices. *)
Definition merge (a b : bytes) : bytes := a +:+ b.

Definition BucketAccounts : bytes := "account_".

(** Go's [error] values, by the call that makes them. *)
Inductive error : Type :=
| ErrHex                                   (* hex.DecodeString *)
| ErrGet                                   (* the store's Get: key not found *)
| ErrPut                                   (* the store's Put: IO error *)
| ErrUnmarshal                             (* Account.Unmarshal *)
| ErrRun (reason : string)                 (* service.Run *)
| Errorf (format arg : string)             (* errors.Errorf(format, arg) *)
| Wrapf (cause : error) (format : string). (* errors.Wrapf(cause, format, ..) *)

(** database.Transaction, the fields the state reads. *)
Record Transaction : Type := mkTransaction {
  Sender : string;      (* hex encoded public key *)
  Tag : string;
  Nonce : N;            (* uint64 *)
  Payload : bytes
}.

Record Delta : Type := mkDelta {
  DeltaAccount : bytes;
  Key : bytes;
  OldValue : bytes;
  NewValue : bytes
}.

(** Modelled from the spec: the Account type is not in the sources. An
    account is a public key, a uint64 nonce and a persistent key to value
    map whose [Store(k, v)] returns the new version. *)
Record Account : Type := mkAccount {
  PublicKey : bytes;
  AccountNonce : N;
  State : gmap string string
}.

Definition NewAccount (key : bytes) : Account :=
  {| PublicKey := key; AccountNonce := 0; State := ∅ |}.

Definition Clone (a : Account) : Account := a.

Definition Store (st : gmap string string) (k v : bytes) : gmap string string :=
  <[k := v]> st.

Definition uint64_max : N := 18446744073709551615.

(** [n++] on a uint64. *)
Definition incr64 (n : N) : N := ((n + 1) mod 2 ^ 64)%N.

Definition incrNonce (a : Account) : Account :=
  {| PublicKey := PublicKey a;
     AccountNonce := incr64 (AccountNonce a);
     State := State a |}.

Definition storeState (a : Account) (k v : bytes) : Account :=
  {| PublicKey := PublicKey a;
     AccountNonce := AccountNonce a;
     State := Store (State a) k v |}.

(** encoding/hex: one nibble, both letter cases. *)
Definition fromHexChar (c : ascii) : option N :=
  let n := N_of_ascii c in
  if ((48 <=? n) && (n <=? 57))%N then Some (n - 48)%N
  else if ((97 <=? n) && (n <=? 102))%N then Some (n - 97 + 10)%N
  else if ((65 <=? n) && (n <=? 70))%N then Some (n - 65 + 10)%N
  else None.

(** hex.DecodeString: an odd length or a character that is no hex digit is
    an error. *)
Fixpoint DecodeString (s : string) : bytes + error :=
  match s with
  | EmptyString => inl EmptyString
  | String _ EmptyString => inr ErrHex
  | String hi (String lo rest) =>
      match fromHexChar hi, fromHexChar lo with
      | Some a, Some b =>
          match DecodeString rest with
          | inl out => inl (String (ascii_of_N (a * 16 + b)) out)
          | inr err => inr err
          end
      | _, _ => inr ErrHex
      end
  end.

(** What the state gets from outside this file: the sandboxed services, the
    account codec and the IO faults of the key-value store. *)
Class Host : Type := {
  (** a registered [*service], with the state its virtual machine keeps *)
  service : Type;
  (** [service.Run(tx)]: the guest reads the ledger through its host
      functions and returns deltas and pending transactions, or an error. *)
  Run : service -> gmap string string -> Transaction ->
        service * (list Delta * list Transaction + error);
  MarshalBinary : Account -> bytes;
  (** [account.Unmarshal(bytes)] on the receiver [account] *)
  Unmarshal : Account -> bytes -> Account + error;
  (** whether [Put(key, value)] fails on the current store *)
  put_fault : gmap string string -> bytes -> bytes -> bool
}.

Section State.
Context `{Host}.

(** type state: the ledger's key-value store and the registered services *)
Record state : Type := mkState {
  kv : gmap string string;
  services : list service
}.

(** Modelled from the spec: the embedded [*Ledger] is not in the sources.
    [get(key)] is a raw read that may not find the key; [put(key, value)]
    is a raw write, atomic at the key granularity, that may fail with an
    IO error. *)
Definition Get (s : state) (key : bytes) : bytes + error :=
  match kv s !! key with
  | Some v => inl v
  | None => inr ErrGet
  end.

Definition Put (s : state) (key value : bytes) : state * option error :=
  if put_fault (kv s) key value then (s, Some ErrPut)
  else ({| kv := <[key := value]> (kv s); services := services s |}, None).

(** LoadAccount reads the account data for a given public key. *)
Definition LoadAccount (s : state) (key : bytes) : Account + error :=
  match Get s (merge BucketAccounts key) with
  | inr err => inr (Wrapf err "account %s not found in ledger state")
  | inl bytes =>
      let account := NewAccount key in
      match Unmarshal account bytes with
      | inr err => inr (Wrapf err "failed to decode account bytes")
      | inl account => inl (Clone account)
      end
  end.

Definition SaveAccount (s : state) (account : Account) (deltas : list Delta)
  : state * option error :=
  match Put s (merge BucketAccounts (PublicKey account)) (MarshalBinary account) with
  | (s', Some err) => (s', Some err)
  | (s', None) => (s', None)
  end.

(** The loop over [s.services] of doApplyTransaction. [deltas] and
    [pendingTransactions] are the variables declared before the loop. The
    [:=] in the loop body declares a new [deltas] that shadows the outer
    one, so the [append] on the next line assigns the inner variable, here
    [deltas0]. *)
Fixpoint runServices (store : gmap string string) (tx : Transaction)
    (todo : list service) (deltas : list Delta)
    (pendingTransactions : list Transaction)
  : list service * (list Delta * list Transaction + error) :=
  match todo with
  | [] => ([], inl (deltas, pendingTransactions))
  | service :: rest =>
      let '(service', r) := Run service store tx in
      match r with
      | inr err => (service' :: rest, inr err)
      | inl (deltas0, pending) =>
          let deltas0 := deltas0 ++ deltas0 in
          let pendingTransactions :=
            if (0 <? length pending)%nat then pendingTransactions ++ pending
            else pendingTransactions in
          let '(rest', out) := runServices store tx rest deltas pendingTransactions in
          (service' :: rest', out)
      end
  end.

(** One round of the loop over [deltas]: the working set [accounts] holds
    pointers, so the store into [account.State] shows in the map. *)
Definition applyChange (s : state)
    (acc : gmap string Account * gmap string (list Delta)) (change : Delta)
  : gmap string Account * gmap string (list Delta) :=
  let '(accounts, accountDeltas) := acc in
  let accountID := writeString (DeltaAccount change) in
  let account :=
    match accounts !! accountID with
    | Some account => account
    | None =>
        match LoadAccount s (DeltaAccount change) with
        | inl account => account
        | inr _ => NewAccount (DeltaAccount change)
        end
    end in
  let account := storeState account (Key change) (NewValue change) in
  (<[accountID := account]> accounts,
   <[accountID := default [] (accountDeltas !! accountID) ++ [change]]> accountDeltas).

(** Save all modified accounts to the ledger: the errors of SaveAccount are
    dropped. Go ranges over a map in no fixed order; the model takes the
    order of [map_to_list]. *)
Definition saveAll (s : state) (accounts : gmap string Account)
    (accountDeltas : gmap string (list Delta)) : state :=
  foldl (fun s '(id, account) =>
           fst (SaveAccount s account (default [] (accountDeltas !! id))))
        s (map_to_list accounts).

Definition withServices (s : state) (l : list service) : state :=
  {| kv := kv s; services := l |}.

(** Load the senders account: an account that does not load is made anew
    when the transaction's nonce is 0, and is an error otherwise. *)
Definition loadSender (s : state) (tx : Transaction) (senderID : bytes)
  : Account + error :=
  match LoadAccount s senderID with
  | inl sender => inl sender
  | inr _ =>
      if (Nonce tx =? 0)%N then inl (NewAccount senderID)
      else inr (Errorf "transaction sender account %s does not exist" (Sender tx))
  end.

(** doApplyTransaction runs a transaction through the services and applies
    the recorded changes to the ledger state; it returns the transactions
    the services generated. *)
Definition doApplyTransaction (s : state) (tx : Transaction)
  : state * (list Transaction + error) :=
  match DecodeString (Sender tx) with
  | inr err => (s, inr err)
  | inl senderID =>
      if String.eqb (Tag tx) "nop" then
        match LoadAccount s senderID with
        | inr _ =>
            (s, inr (Errorf "nop transaction sender account %s does not exist" (Sender tx)))
        | inl account =>
            let account := incrNonce account in
            let '(s, _) := SaveAccount s account [] in
            (s, inl [])
        end
      else
        let deltas : list Delta := [] in
        let pendingTransactions : list Transaction := [] in
        let '(services', r) :=
          runServices (kv s) tx (services s) deltas pendingTransactions in
        let s := withServices s services' in
        match r with
        | inr err => (s, inr err)
        | inl (deltas, pendingTransactions) =>
            let accounts : gmap string Account := ∅ in
            match loadSender s tx senderID with
            | inr err => (s, inr err)
            | inl sender =>
                let accounts := <[writeString senderID := sender]> accounts in
                let accountDeltas : gmap string (list Delta) := ∅ in
                let '(accounts, accountDeltas) :=
                  foldl (applyChange s) (accounts, accountDeltas) deltas in
                let accounts := alter incrNonce (writeString senderID) accounts in
                let s := saveAll s accounts accountDeltas in
                (s, inl pendingTransactions)
            end
        end
  end.

(** The result of a run of applyTransaction: the final state, the
    transactions handed to doApplyTransaction in the order of the calls, and
    the returned error. *)
Record outcome : Type := mkOutcome {
  final : state;
  applied : list Transaction;
  failure : option error
}.

(** The loop of applyTransaction over the [pending] queue. The services
    decide how many transactions are generated, so the loop is bounded by
    [fuel], the number of doApplyTransaction calls; [None] is a run that
    needs more. *)
Fixpoint drain (fuel : nat) (s : state) (pending : list Transaction)
    (trace : list Transaction) : option outcome :=
  match pending with
  | [] => Some {| final := s; applied := trace; failure := None |}
  | tx :: pending =>
      match fuel with
      | O => None
      | S fuel =>
          let '(s, r) := doApplyTransaction s tx in
          match r with
          | inr err =>
              Some {| final := s; applied := trace ++ [tx]; failure := Some err |}
          | inl new => drain fuel s (pending ++ new) (trace ++ [tx])
          end
      end
  end.

(** applyTransaction runs a transaction, gets any transactions created by
    said transaction, and applies those transactions to the ledger state. *)
Definition applyTransaction (fuel : nat) (s : state) (tx : Transaction)
  : option outcome :=
  drain fuel s [tx] [].

(** *** The breadth-first order, generation by generation

    The order the specification words: the root, then each generation of
    pending transactions in the order they were emitted, before any
    transaction of the next generation. *)

(** Applies the transactions of one generation in order; [next] collects
    what they emit, in the order of emission. *)
Fixpoint applyGeneration (s : state) (generation next trace : list Transaction)
  : state * list Transaction * (list Transaction + error) :=
  match generation with
  | [] => (s, trace, inl next)
  | tx :: generation =>
      let '(s, r) := doApplyTransaction s tx in
      match r with
      | inr err => (s, trace ++ [tx], inr err)
      | inl new => applyGeneration s generation (next ++ new) (trace ++ [tx])
      end
  end.

(** Generation after generation; [fuel] bounds the number of generations. *)
Fixpoint applyLevels (fuel : nat) (s : state) (generation trace : list Transaction)
  : option outcome :=
  match generation with
  | [] => Some {| final := s; applied := trace; failure := None |}
  | _ :: _ =>
      match fuel with
      | O => None
      | S fuel =>
          match applyGeneration s generation [] trace with
          | (s, trace, inr err) =>
              Some {| final := s; applied := trace; failure := Some err |}
          | (s, trace, inl next) => applyLevels fuel s next trace
          end
      end
  end.

(** The end of a generation: stop at its error, or go on with the next. *)
Definition finishGeneration (fuel : nat)
    (r : state * list Transaction * (list Transaction + error)) : option outcome :=
  match r with
  | (s, trace, inr err) =>
      Some {| final := s; applied := trace; failure := Some err |}
  | (s, trace, inl next) => applyLevels fuel s next trace
  end.

(** Applies a list of transactions one after the other, dropping what they
    emit, up to the first error. *)
Fixpoint applyAll (s : state) (txs : list Transaction) : state * option error :=
  match txs with
  | [] => (s, None)
  | tx :: txs =>
      let '(s, r) := doApplyTransaction s tx in
      match r with
      | inr err => (s, Some err)
      | inl _ => applyAll s txs
      end
  end.

(** The nonce stored for a public key, when its record loads. *)
Definition storedNonce (s : state) (key : bytes) : option N :=
  match LoadAccount s key with
  | inl account => Some (AccountNonce account)
  | inr _ => None
  end.

(** The value stored under a key of an account's state, when the record
    loads. *)
Definition storedValue (s : state) (key k : bytes) : option string :=
  match LoadAccount s key with
  | inl account => State account !! k
  | inr _ => None
  end.

End State.

(** *** A reference host for running the model

    The account codec follows the layout of the specification: the public
    key (32 bytes), the nonce as a varint, then the pairs of the state, each
    side with its length as a varint. *)

Fixpoint putUvarint (fuel : nat) (n : N) : bytes :=
  match fuel with
  | O => ""
  | S fuel =>
      if (n <? 128)%N then String (ascii_of_N n) ""
      else String (ascii_of_N (128 + n mod 128)) (putUvarint fuel (n / 128))
  end.

Fixpoint uvarint (fuel : nat) (b : bytes) : option (N * bytes) :=
  match fuel, b with
  | S fuel, String c rest =>
      let x := N_of_ascii c in
      if (x <? 128)%N then Some (x, rest)
      else
        match uvarint fuel rest with
        | Some (hi, rest) => Some ((x - 128) + 128 * hi, rest)%N
        | None => None
        end
  | _, _ => None
  end.

Fixpoint splitAt (n : nat) (b : bytes) : option (bytes * bytes) :=
  match n, b with
  | O, _ => Some ("", b)
  | S n, String c rest =>
      match splitAt n rest with
      | Some (l, r) => Some (String c l, r)
      | None => None
      end
  | S _, EmptyString => None
  end.

Definition putBytes (b : bytes) : bytes :=
  putUvarint 10 (N.of_nat (String.length b)) +:+ b.

Definition getBytes (b : bytes) : option (bytes * bytes) :=
  match uvarint 10 b with
  | Some (n, rest) => splitAt (N.to_nat n) rest
  | None => None
  end.

Fixpoint getPairs (count : nat) (b : bytes) : option (list (string * string) * bytes) :=
  match count with
  | O => Some ([], b)
  | S count =>
      match getBytes b with
      | Some (k, rest) =>
          match getBytes rest with
          | Some (v, rest) =>
              match getPairs count rest with
              | Some (l, rest) => Some ((k, v) :: l, rest)
              | None => None
              end
          | None => None
          end
      | None => None
      end
  end.

Definition encodeAccount (a : Account) : bytes :=
  PublicKey a +:+ putUvarint 10 (AccountNonce a)
  +:+ putUvarint 10 (N.of_nat (size (State a)))
  +:+ foldr (fun '(k, v) out => putBytes k +:+ putBytes v +:+ out) ""
        (map_to_list (State a)).

Definition decodeAccount (receiver : Account) (b : bytes) : Account + error :=
  match splitAt 32 b with
  | Some (pk, rest) =>
      match uvarint 10 rest with
      | Some (nonce, rest) =>
          match uvarint 10 rest with
          | Some (count, rest) =>
              match getPairs (N.to_nat count) rest with
              | Some (pairs, "") =>
                  inl {| PublicKey := pk; AccountNonce := nonce;
                         State := list_to_map pairs |}
              | _ => inr ErrUnmarshal
              end
          | None => inr ErrUnmarshal
          end
      | None => inr ErrUnmarshal
      end
  | None => inr ErrUnmarshal
  end.

(** A host whose services are stateless scripts [run], and whose store
    refuses the writes to the keys [fault] picks. *)
Definition scriptedHost
    (run : Transaction -> list Delta * list Transaction + error)
    (fault : bytes -> bool) : Host :=
  {| service := unit;
     Run := fun u _ tx => (u, run tx);
     MarshalBinary := encodeAccount;
     Unmarshal := decodeAccount;
     put_fault := fun _ key _ => fault key |}.

(** The byte [c], 32 times: a public key; and its hex form. *)
Definition pk32 (c : ascii) : bytes := string_of_list_ascii (repeat c 32).

Fixpoint hexOf (n : nat) (hi lo : ascii) : string :=
  match n with
  | O => ""
  | S n => String hi (String lo (hexOf n hi lo))
  end.

Definition alice : bytes := pk32 "001"%char.
Definition aliceHex : string := hexOf 32 "0" "1".
Definition bob : bytes := pk32 "002"%char.
Definition bobHex : string := hexOf 32 "0" "2".
Definition carol : bytes := pk32 "003"%char.
Definition carolHex : string := hexOf 32 "0" "3".

Definition noFault (key : bytes) : bool := false.
Definition allFault (key : bytes) : bool := true.

(** A transfer processor: it emits one delta, carol's new balance. *)
Definition transferDelta : Delta :=
  {| DeltaAccount := carol; Key := "balance"; OldValue := ""; NewValue := "10" |}.

Definition transferRun (tx : Transaction) : list Delta * list Transaction + error :=
  if String.eqb (Tag tx) "transfer" then inl ([transferDelta], []) else inl ([], []).

Definition transferHost : Host := scriptedHost transferRun noFault.
Definition faultyHost : Host := scriptedHost transferRun allFault.

Definition transferTx : Transaction :=
  {| Sender := bobHex; Tag := "transfer"; Nonce := 0; Payload := "" |}.

(** A contract processor: a "contract" transaction emits one pending nop
    of alice. *)
Definition aliceNop : Transaction :=
  {| Sender := aliceHex; Tag := "nop"; Nonce := 0; Payload := "" |}.

Definition contractRun (tx : Transaction) : list Delta * list Transaction + error :=
  if String.eqb (Tag tx) "contract" then inl ([], [aliceNop])
  else if String.eqb (Tag tx) "abort" then inr (ErrRun "abort")
  else inl ([], []).

Definition contractHost : Host := scriptedHost contractRun noFault.

Definition contractTx : Transaction :=
  {| Sender := bobHex; Tag := "contract"; Nonce := 0; Payload := "" |}.

Definition abortTx : Transaction :=
  {| Sender := bobHex; Tag := "abort"; Nonce := 7; Payload := "" |}.

(** A processor that unfolds a tree two generations deep: "a" emits "b1"
    and "b2", "b1" emits "c1", "b2" emits "c2". *)
Definition leaf (tag : string) : Transaction :=
  {| Sender := bobHex; Tag := tag; Nonce := 0; Payload := "" |}.

Definition treeRun (tx : Transaction) : list Delta * list Transaction + error :=
  if String.eqb (Tag tx) "a" then inl ([], [leaf "b1"; leaf "b2"])
  else if String.eqb (Tag tx) "b1" then inl ([], [leaf "c1"])
  else if String.eqb (Tag tx) "b2" then inl ([], [leaf "c2"])
  else inl ([], []).

Definition treeHost : Host := scriptedHost treeRun noFault.

Definition bfsOrder : list Transaction :=
  [leaf "a"; leaf "b1"; leaf "b2"; leaf "c1"; leaf "c2"].

Definition bobAfter : Account := {| PublicKey := bob; AccountNonce := 1; State := ∅ |}.
Definition aliceAt (n : N) : Account :=
  {| PublicKey := alice; AccountNonce := n; State := ∅ |}.

Definition bobAt (n : N) : Account :=
  {| PublicKey := bob; AccountNonce := n; State := ∅ |}.

(** An empty store, and a store that holds one account, each with one
    registered service. *)
Definition emptyState (run : Transaction -> list Delta * list Transaction + error)
    (fault : bytes -> bool) : @state (scriptedHost run fault) :=
  @mkState (scriptedHost run fault) ∅ [tt].

Definition stateOf (run : Transaction -> list Delta * list Transaction + error)
    (fault : bytes -> bool) (account : Account) : @state (scriptedHost run fault) :=
  @mkState (scriptedHost run fault)
    {[ merge BucketAccounts (PublicKey account) := encodeAccount account ]} [tt].

(** The run of the contract transaction from the empty store, and the run
    of the tree. *)
Definition contractOutcome : @outcome contractHost :=
  {| final := stateOf contractRun noFault bobAfter;
     applied := [contractTx; aliceNop];
     failure :=
       Some (Errorf "nop transaction sender account %s does not exist" aliceHex) |}.

Definition bobOutcome : @outcome contractHost :=
  {| final := stateOf contractRun noFault (bobAt 5);
     applied := [contractTx; aliceNop];
     failure :=
       Some (Errorf "nop transaction sender account %s does not exist" aliceHex) |}.

Definition treeOutcome : @outcome treeHost :=
  {| final := stateOf treeRun noFault (bobAt 5);
     applied := bfsOrder;
     failure := None |}.

(** *** Registration of the services *)

(** strings.HasSuffix *)
Definition HasSuffix (s suffix : string) : bool :=
  (String.length suffix <=? String.length s)%nat
  && String.eqb
       (substring (String.length s - String.length suffix) (String.length suffix) s)
       suffix.

(** What registration gets from the file system and from the virtual
    machine of package exec. *)
Class Loader `{Host} : Type := {
  VirtualMachine : Type;
  (** filepath.Glob *)
  Glob : string -> list string + error;
  (** filepath.Base *)
  Base : string -> string;
  (** ioutil.ReadFile *)
  ReadFile : string -> bytes + error;
  (** [exec.NewVirtualMachine(code, config, service, nil)] with the default
      memory pages and table size of [config], for the service of a name *)
  NewVirtualMachine : bytes -> N -> N -> string -> VirtualMachine + error;
  (** [vm.GetFunctionExport(name)] *)
  GetFunctionExport : VirtualMachine -> string -> option N;
  (** the [*service] made by NewService for a name, with its [vm] and
      [entry] set *)
  registeredService : string -> VirtualMachine -> N -> service
}.

Section Registration.
Context `{Loader}.

(** registerService internally loads a *.wasm module representing a
    service, and registers the service with a specified name. *)
Definition registerService (m : state) (name path : string) : state * option error :=
  if negb (HasSuffix path ".wasm") then
    (m, Some (Errorf "service code %s file should be in *.wasm format" path))
  else
    match ReadFile path with
    | inr err => (m, Some err)
    | inl code =>
        match NewVirtualMachine code 128 65536 name with
        | inr err => (m, Some err)
        | inl vm =>
            match GetFunctionExport vm "process" with
            | None =>
                (m, Some (Errorf "could not find 'process' func in %s *.wasm file" path))
            | Some entry =>
                ({| kv := kv m;
                    services := services m ++ [registeredService name vm entry] |},
                 None)
            end
        end
    end.

(** The loop of registerServicePath over the files. [None] is the panic
    of [name[:len(name)-5]] on a name of fewer than 5 bytes. *)
Fixpoint registerFiles (m : state) (files : list string) : option (state * option error) :=
  match files with
  | [] => Some (m, None)
  | f :: files =>
      let name := Base f in
      if (String.length name <? 5)%nat then None
      else
        match registerService m (substring 0 (String.length name - 5) name) f with
        | (m, Some err) => Some (m, Some err)
        | (m, None) => registerFiles m files
        end
  end.

(** registerServicePath registers all the services in a path. *)
Definition registerServicePath (m : state) (path : string)
  : option (state * option error) :=
  match Glob (path +:+ "/*.wasm") with
  | inr err => Some (m, Some err)
  | inl files =>
      match registerFiles m files with
      | None => None
      | Some (m, Some err) => Some (m, Some err)
      | Some (m, None) =>
          if (length (services m) =? 0)%nat then
            Some (m, Some (Errorf
                   "No WebAssembly services were successfully registered for path: %s"
                   path))
          else Some (m, None)
      end
  end.

(** The service a file is registered as: the one made for its base name
    without the last five bytes, on the virtual machine loaded from the
    code of the file, with the export "process" as its entry. *)
Definition serviceOf (f : string) (srv : service) : Prop :=
  exists (code : bytes) (vm : VirtualMachine) (entry : N),
    HasSuffix f ".wasm" = true /\
    ReadFile f = inl code /\
    NewVirtualMachine code 128 65536
      (substring 0 (String.length (Base f) - 5) (Base f)) = inl vm /\
    GetFunctionExport vm "process" = Some entry /\
    srv = registeredService
            (substring 0 (String.length (Base f) - 5) (Base f)) vm entry.

End Registration.

Section StateMore.
Context `{Host}.

(** What a run of a service emitted as pending transactions. *)
Definition pendingOf (r : service * (list Delta * list Transaction + error))
  : list Transaction :=
  match snd r with
  | inl (_, pending) => pending
  | inr _ => []
  end.

Definition failed (r : service * (list Delta * list Transaction + error)) : bool :=
  match snd r with
  | inl _ => false
  | inr _ => true
  end.

(** Applies a list of transactions one after the other, up to the first
    error, and collects what they emit, in order. *)
Fixpoint applyEmitting (s : state) (txs : list Transaction)
  : state * list Transaction * option error :=
  match txs with
  | [] => (s, [], None)
  | tx :: txs =>
      let '(s, r) := doApplyTransaction s tx in
      match r with
      | inr err => (s, [], Some err)
      | inl new =>
          let '(s, emitted, e) := applyEmitting s txs in
          (s, new ++ emitted, e)
      end
  end.

(** Whether a delta changes the key of the state of the account that
    another one changes. *)
Definition sameSlot (d d' : Delta) : Prop :=
  DeltaAccount d' = DeltaAccount d /\ Key d' = Key d.

End StateMore.

(** A host whose services are known by their names, and a loader over
    three directories: "svc" with two modules, "mixed" with a module
    without the export "process" between two good ones, and any other
    directory, which has no module. *)
Definition namedHost : Host :=
  {| service := string;
     Run := fun name _ tx => (name, inl ([], []));
     MarshalBinary := encodeAccount;
     Unmarshal := decodeAccount;
     put_fault := fun _ _ _ => false |}.

Fixpoint hasSlash (path : string) : bool :=
  match path with
  | EmptyString => false
  | String c rest => Ascii.eqb c "/" || hasSlash rest
  end.

(** The last element of a path that does not end in a slash. *)
Fixpoint lastElement (path : string) : string :=
  match path with
  | EmptyString => EmptyString
  | String c rest =>
      if hasSlash rest then lastElement rest
      else if Ascii.eqb c "/" then rest else path
  end.

Definition namedLoader : @Loader namedHost :=
  {| VirtualMachine := string;
     Glob := fun pattern =>
       if String.eqb pattern "svc/*.wasm" then
         inl ["svc/transfer.wasm"; "svc/stake.wasm"]
       else if String.eqb pattern "mixed/*.wasm" then
         inl ["mixed/transfer.wasm"; "mixed/broken.wasm"; "mixed/stake.wasm"]
       else inl [];
     Base := lastElement;
     ReadFile := fun path => inl path;
     NewVirtualMachine := fun code pages table name => inl code;
     GetFunctionExport := fun vm name =>
       if String.eqb vm "mixed/broken.wasm" then None else Some 0%N;
     registeredService := fun name vm entry => (name : @service namedHost) |}.

Definition namedNone : @state namedHost := @mkState namedHost ∅ [].

(** Alice's nop again, with another nonce and a payload. *)
Definition aliceNopAgain : Transaction :=
  {| Sender := aliceHex; Tag := "nop"; Nonce := 9; Payload := "x" |}.

(** Two more deltas for carol: an earlier balance, and her stake. *)
Definition earlierDelta : Delta :=
  {| DeltaAccount := carol; Key := "balance"; OldValue := ""; NewValue := "5" |}.
Definition stakeDelta : Delta :=
  {| DeltaAccount := carol; Key := "stake"; OldValue := ""; NewValue := "1" |}.

(** A host with two services that each emit a pending nop, and a third
    that fails. *)
Definition threeRun (srv : nat) (tx : Transaction)
  : list Delta * list Transaction + error :=
  match srv with
  | O => inl ([], [leaf "first"])
  | S O => inl ([], [leaf "second"])
  | _ => inr (ErrRun "third")
  end.

Definition numberedHost : Host :=
  {| service := nat;
     Run := fun srv _ tx => (srv, threeRun srv tx);
     MarshalBinary := encodeAccount;
     Unmarshal := decodeAccount;
     put_fault := fun _ _ _ => false |}.

End wavelet.

(** ** Package node: the protocol block *)

Module node.

Abbreviation bytes := (list byte) (only parsing).

#[global] Instance byte_eq_dec : EqDecision byte := Byte.byte_eq_dec.

(** change this to a smaller value for debugging. *)
Definition syncChunkSize : nat := Z.to_nat 1048576.

(** wavelet.Transaction, the fields the handlers read. *)
Record Transaction : Type := mkTransaction {
  ID : bytes;
  ViewID : N;       (* uint64 *)
  Body : bytes
}.

Inductive error : Type :=
| VoteAccepted
| VoteRejected (reason : string)
| ErrInvalid (reason : string)             (* wavelet.AssertValidTransaction *)
| ErrSend                                  (* peer.SendMessageAsync *)
| Wrap (cause : error) (message : string). (* errors.Wrap(cause, message) *)

(** errors.Cause: the error under the wrappers. *)
Fixpoint Cause (err : error) : error :=
  match err with
  | Wrap cause _ => Cause cause
  | _ => err
  end.

(** [errors.Cause(err) == wavelet.VoteAccepted], for an [err] that may be
    nil. *)
Definition isVoteAccepted (err : option error) : bool :=
  match err with
  | Some e => match Cause e with VoteAccepted => true | _ => false end
  | None => false
  end.

(** The response messages; a pointer field that is nil is [None]. *)
Inductive message : Type :=
| GossipResponse (vote : bool)
| QueryResponse (preferred : option Transaction)
| SyncViewResponse (root : option Transaction)
| SyncDiffMetadataResponse (latestViewID : N) (chunkHashes : list bytes)
| SyncDiffChunkResponse (found : bool) (diff : bytes)
| SyncTransactionResponse (transactions : list Transaction).

(** A connected peer: what was sent to it, whether the next send fails,
    and whether it was disconnected. *)
Record Peer : Type := mkPeer {
  PeerID : bytes;
  sendFails : bool;
  outbox : list message;
  disconnected : bool
}.

Definition SendMessageAsync (peer : Peer) (msg : message) : Peer * option error :=
  if sendFails peer then (peer, Some ErrSend)
  else ({| PeerID := PeerID peer; sendFails := sendFails peer;
           outbox := outbox peer ++ [msg]; disconnected := disconnected peer |},
        None).

Definition DisconnectAsync (peer : Peer) : Peer :=
  {| PeerID := PeerID peer; sendFails := sendFails peer;
     outbox := outbox peer; disconnected := true |}.

(** The send every handler ends with, deferred or not:
    [if err := <-peer.SendMessageAsync(res); err != nil { _ = peer.DisconnectAsync() }]. *)
Definition reply (peer : Peer) (res : message) : Peer :=
  match SendMessageAsync peer res with
  | (peer, Some _) => DisconnectAsync peer
  | (peer, None) => peer
  end.

(** Modelled from the spec: the syncer is not in the sources. Its resolver
    yields a preferred root, or none, and [Prefer] sets it; the syncer
    records the root each peer reported, for its quorum decisions. *)
Record Syncer : Type := mkSyncer {
  resolverPreferred : option Transaction;
  recorded : list (bytes * bytes)     (* peer id, root id; the last first *)
}.

Definition Prefer (syncer : Syncer) (root : Transaction) : Syncer :=
  {| resolverPreferred := Some root; recorded := recorded syncer |}.

Definition recordRootFromAccount (syncer : Syncer) (peerID rootID : bytes) : Syncer :=
  {| resolverPreferred := resolverPreferred syncer;
     recorded := (peerID, rootID) :: recorded syncer |}.

(** Modelled from the spec: the lru type is not in the sources. A cache of
    bounded capacity that evicts the least recently used entry; [entries]
    has the most recently used first. *)
Record lru : Type := mkLRU {
  capacity : nat;
  entries : list (bytes * bytes)
}.

Definition newLRU (capacity : nat) : lru :=
  {| capacity := capacity; entries := [] |}.

Definition without (key : bytes) (l : list (bytes * bytes)) : list (bytes * bytes) :=
  filter (fun e => e.1 ≠ key) l.

Fixpoint find (key : bytes) (l : list (bytes * bytes)) : option bytes :=
  match l with
  | [] => None
  | (k, v) :: l => if decide (k = key) then Some v else find key l
  end.

Definition put (c : lru) (key val : bytes) : lru :=
  {| capacity := capacity c;
     entries := take (capacity c) ((key, val) :: without key (entries c)) |}.

Definition load (c : lru) (key : bytes) : lru * option bytes :=
  match find key (entries c) with
  | Some val =>
      ({| capacity := capacity c;
          entries := (key, val) :: without key (entries c) |}, Some val)
  | None => (c, None)
  end.

(** [b[i:j]] for [i <= j <= len(b)]. *)
Definition slice (b : bytes) (i j : nat) : bytes := take (j - i) (drop i b).

(** uint64 subtraction of one. *)
Definition pred64 (n : N) : N := ((n + 2 ^ 64 - 1) mod 2 ^ 64)%N.

(** What the handlers get from the ledger of package wavelet. *)
Class LedgerAPI : Type := {
  Ledger : Type;
  LedgerViewID : Ledger -> N;
  Root : Ledger -> Transaction;
  (** [ledger.Resolver().Preferred()] *)
  Preferred : Ledger -> option Transaction;
  ReceiveTransaction : Ledger -> Transaction -> Ledger * option error;
  (** [ledger.Accounts.DumpDiff(viewID)] *)
  DumpDiff : Ledger -> N -> bytes;
  FindTransaction : Ledger -> bytes -> option Transaction;
  AssertValidTransaction : Transaction -> option error
}.

(** golang.org/x/crypto/blake2b *)
Class Blake2b : Type := {
  Sum256 : bytes -> bytes
}.

Section Handlers.
Context `{LedgerAPI}.

(** What the node holds under its keys: the ledger, the broadcaster's
    [Paused] flag and the syncer; and, for the statements, the transactions
    handed to ReceiveTransaction, in the order of the calls. *)
Record Node : Type := mkNode {
  ledger : Ledger;
  Paused : bool;
  syncer : Syncer;
  received : list Transaction
}.

Definition withLedger (node : Node) (l : Ledger) (tx : Transaction) : Node :=
  {| ledger := l; Paused := Paused node; syncer := syncer node;
     received := received node ++ [tx] |}.

Definition withSyncer (node : Node) (s : Syncer) : Node :=
  {| ledger := ledger node; Paused := Paused node; syncer := s;
     received := received node |}.

(** The root of the response of handleSyncViewRequest and the syncer it
    leaves: the steps of the handler before its deferred send. *)
Definition syncView (node : Node) (peer : Peer) (reqRoot : Transaction)
  : Syncer * option Transaction :=
  let resRoot : option Transaction := None in
  let syncer0 := syncer node in
  let resRoot :=
    match resolverPreferred syncer0 with
    | None => Some (Root (ledger node))
    | Some preferred => Some preferred
    end in
  match AssertValidTransaction reqRoot with
  | Some err => (syncer0, resRoot)
  | None =>
      let '(syncer0, resRoot) :=
        if (LedgerViewID (ledger node) <? ViewID reqRoot)%N
           && bool_decide (resolverPreferred syncer0 = None)
        then (Prefer syncer0 reqRoot, Some reqRoot)
        else (syncer0, resRoot) in
      (recordRootFromAccount syncer0 (PeerID peer) (ID reqRoot), resRoot)
  end.

Definition handleSyncViewRequest (node : Node) (peer : Peer) (reqRoot : Transaction)
  : Node * Peer :=
  let '(syncer0, resRoot) := syncView node peer reqRoot in
  (withSyncer node syncer0, reply peer (SyncViewResponse resRoot)).

Definition handleQueryRequest (node : Node) (peer : Peer) (reqTx : Transaction)
  : Node * Peer :=
  let preferred : option Transaction := None in
  if Paused node then (node, reply peer (QueryResponse preferred))
  else
    let preferred :=
      if (ViewID reqTx =? pred64 (LedgerViewID (ledger node)))%N
      then Some (Root (ledger node))
      else
        match Preferred (ledger node) with
        | Some p => Some p
        | None => preferred
        end in
    let '(l, err) := ReceiveTransaction (ledger node) reqTx in
    let preferred := if isVoteAccepted err then Some reqTx else preferred in
    (withLedger node l reqTx, reply peer (QueryResponse preferred)).

Definition handleGossipRequest (node : Node) (peer : Peer) (reqTX : Transaction)
  : Node * Peer :=
  let vote := false in
  if Paused node then (node, reply peer (GossipResponse vote))
  else
    let '(l, err) := ReceiveTransaction (ledger node) reqTX in
    let vote := isVoteAccepted err in
    (withLedger node l reqTX, reply peer (GossipResponse vote)).

Definition handleSyncTransactionRequest (node : Node) (peer : Peer) (ids : list bytes)
  : Node * Peer :=
  let transactions :=
    foldl (fun acc id =>
             match FindTransaction (ledger node) id with
             | Some tx => acc ++ [tx]
             | None => acc
             end) [] ids in
  (node, reply peer (SyncTransactionResponse transactions)).

Context `{Blake2b}.

(** The loop of handleSyncDiffMetadataRequest,
    [for i := 0; i < len(diff); i += size], with [size] for syncChunkSize.
    [fuel] bounds the number of rounds. *)
Fixpoint chunkLoop (size fuel : nat) (diff : bytes) (i : nat)
    (chunkCache : lru) (chunkHashes : list bytes) : lru * list bytes :=
  match fuel with
  | O => (chunkCache, chunkHashes)
  | S fuel =>
      if (i <? length diff)%nat then
        let end_ := (i + size)%nat in
        let end_ := if (length diff <? end_)%nat then length diff else end_ in
        let hash := Sum256 (slice diff i end_) in
        let chunkCache := put chunkCache hash (slice diff i end_) in
        chunkLoop size fuel diff (i + size) chunkCache (chunkHashes ++ [hash])
      else (chunkCache, chunkHashes)
  end.

(** The cache and the response of handleSyncDiffMetadataRequest, before
    its send. With a positive chunk size the loop makes at most
    [len(diff)] rounds. *)
Definition syncDiffMetadata (size : nat) (node : Node) (viewID : N) (chunkCache : lru)
  : lru * message :=
  let diff := DumpDiff (ledger node) viewID in
  let '(chunkCache, chunkHashes) :=
    chunkLoop size (length diff) diff 0 chunkCache [] in
  (chunkCache, SyncDiffMetadataResponse (LedgerViewID (ledger node)) chunkHashes).

Definition handleSyncDiffMetadataRequest (node : Node) (peer : Peer) (viewID : N)
    (chunkCache : lru) : lru * Peer :=
  let '(chunkCache, res) := syncDiffMetadata syncChunkSize node viewID chunkCache in
  (chunkCache, reply peer res).

(** The cache and the response of handleSyncDiffChunkRequest, before its
    send. *)
Definition syncDiffChunk (chunkHash : bytes) (chunkCache : lru) : lru * message :=
  match load chunkCache chunkHash with
  | (chunkCache, Some chunk) => (chunkCache, SyncDiffChunkResponse true chunk)
  | (chunkCache, None) => (chunkCache, SyncDiffChunkResponse false [])
  end.

Definition handleSyncDiffChunkRequest (node : Node) (peer : Peer) (chunkHash : bytes)
    (chunkCache : lru) : lru * Peer :=
  let '(chunkCache, res) := syncDiffChunk chunkHash chunkCache in
  (chunkCache, reply peer res).

(** [chunkCache.put(hash, chunk)] for the hash of the chunk. *)
Definition putChunk (c : lru) (chunk : bytes) : lru := put c (Sum256 chunk) chunk.

(** Every entry of the cache is a chunk under its own hash. *)
Definition coherent (chunkCache : lru) : Prop :=
  forall key val : bytes, (key, val) ∈ entries chunkCache -> Sum256 val = key.

(** The requests a peer sends. *)
Inductive request : Type :=
| GossipRequest (TX : Transaction)
| QueryRequest (tx : Transaction)
| SyncViewRequest (root : Transaction)
| SyncDiffMetadataRequest (viewID : N)
| SyncDiffChunkRequest (chunkHash : bytes)
| SyncTransactionRequest (ids : list bytes).

(** One round of receiveLoop: the handler of the request that arrived.
    The handlers are goroutines in the source; here each one ends before
    the next request is taken. *)
Definition serve (st : Node * Peer * lru) (req : request) : Node * Peer * lru :=
  let '(node, peer, chunkCache) := st in
  match req with
  | GossipRequest tx =>
      let '(node, peer) := handleGossipRequest node peer tx in (node, peer, chunkCache)
  | QueryRequest tx =>
      let '(node, peer) := handleQueryRequest node peer tx in (node, peer, chunkCache)
  | SyncViewRequest root =>
      let '(node, peer) := handleSyncViewRequest node peer root in (node, peer, chunkCache)
  | SyncDiffMetadataRequest viewID =>
      let '(chunkCache, peer) := handleSyncDiffMetadataRequest node peer viewID chunkCache in
      (node, peer, chunkCache)
  | SyncDiffChunkRequest chunkHash =>
      let '(chunkCache, peer) := handleSyncDiffChunkRequest node peer chunkHash chunkCache in
      (node, peer, chunkCache)
  | SyncTransactionRequest ids =>
      let '(node, peer) := handleSyncTransactionRequest node peer ids in
      (node, peer, chunkCache)
  end.

(** receiveLoop on the requests [reqs]: the chunk cache is made anew for
    the peer, with room for 1024 chunks. The source starts every handler
    with [go], so the steps of two handlers may interleave; the fold runs
    them to their end one after the other in the order of arrival, which is
    one schedule among those of the source. What is proved along the fold
    below is kept by every single step of a handler (a paused handler only
    reads the flag; the cache is only changed by [put] and [load]); nothing
    is claimed through it on the check and the [Prefer] of two sync-view
    handlers. *)
Definition receiveLoop (node : Node) (peer : Peer) (reqs : list request)
  : Node * Peer * lru :=
  foldl serve (node, peer, newLRU 1024) reqs.

End Handlers.

(** *** A ledger for running the handlers *)

Record viewLedger : Type := mkViewLedger {
  view : N;
  viewRoot : Transaction;
  viewPreferred : option Transaction
}.

(** A ledger that accepts every transaction it receives and changes
    nothing, with [valid] for the check of AssertValidTransaction. *)
Definition viewAPI (valid : Transaction -> bool) : LedgerAPI :=
  {| Ledger := viewLedger;
     LedgerViewID := view;
     Root := viewRoot;
     Preferred := viewPreferred;
     ReceiveTransaction := fun l tx => (l, Some VoteAccepted);
     DumpDiff := fun l viewID => [];
     FindTransaction := fun l id => None;
     AssertValidTransaction :=
       fun tx => if valid tx then None else Some (ErrInvalid "invalid") |}.

Definition acceptAll (tx : Transaction) : bool := true.
Definition rejectAll (tx : Transaction) : bool := false.

Definition ourRoot : Transaction :=
  {| ID := [x01]; ViewID := 3; Body := [] |}.
Definition peerRoot : Transaction :=
  {| ID := [x02]; ViewID := 9; Body := [] |}.

Definition viewNode (valid : Transaction -> bool) (paused : bool)
  : @Node (viewAPI valid) :=
  @mkNode (viewAPI valid)
    {| view := 3; viewRoot := ourRoot; viewPreferred := None |}
    paused {| resolverPreferred := None; recorded := [] |} [].

Definition somePeer : Peer :=
  {| PeerID := [x07]; sendFails := false; outbox := []; disconnected := false |}.

(** Whether a message is the response to a request. *)
Definition answers `{LedgerAPI} (req : request) (res : message) : bool :=
  match req, res with
  | GossipRequest _, GossipResponse _ => true
  | QueryRequest _, QueryResponse _ => true
  | SyncViewRequest _, SyncViewResponse _ => true
  | SyncDiffMetadataRequest _, SyncDiffMetadataResponse _ _ => true
  | SyncDiffChunkRequest _, SyncDiffChunkResponse _ _ => true
  | SyncTransactionRequest _, SyncTransactionResponse _ => true
  | _, _ => false
  end.

(** A ledger whose diff is the five bytes below and that rejects what it
    receives, wrapping the reason; and the identity as a stand-in for the
    hash when the handlers are run. *)
Definition fiveBytes : bytes := [x01; x02; x03; x04; x05].

Definition diffAPI : LedgerAPI :=
  {| Ledger := viewLedger;
     LedgerViewID := view;
     Root := viewRoot;
     Preferred := viewPreferred;
     ReceiveTransaction :=
       fun l tx => (l, Some (Wrap (VoteRejected "nonce") "receive"));
     DumpDiff := fun l viewID => fiveBytes;
     FindTransaction :=
       fun l id => if decide (id = ID peerRoot) then Some peerRoot else None;
     AssertValidTransaction := fun tx => None |}.

Definition identityHash : Blake2b := {| Sum256 := fun b => b |}.

(** The peer after the metadata response for the five bytes was sent. *)
Definition announcedPeer : Peer :=
  {| PeerID := [x07]; sendFails := false;
     outbox := [SyncDiffMetadataResponse 3 [fiveBytes]]; disconnected := false |}.

(** The cache after the metadata request for the five bytes. *)
Definition fiveCache : lru :=
  {| capacity := 1024; entries := [(fiveBytes, fiveBytes)] |}.

Definition diffNode (paused : bool) (preferred : option Transaction) : @Node diffAPI :=
  @mkNode diffAPI
    {| view := 3; viewRoot := ourRoot; viewPreferred := None |}
    paused {| resolverPreferred := preferred; recorded := [] |} [].

End node.

(** ** Package api: the request context *)

Module api.

Inductive error : Type :=
| ErrHeaderNotFound      (* required header not found *)
| ErrMsgBodyNil          (* message body is nil *)
| ErrSessionNotFound     (* session not found *)
| ErrTokenExpired.       (* token expired *)

(** requireHeader returns a header value if present: [header] is the
    request's http.Header, a map from names to lists of values, read with
    the names as they are given. *)
Fixpoint requireHeader (header : gmap string (list string)) (names : list string)
  : string + error :=
  match names with
  | [] => inr ErrHeaderNotFound
  | name :: names =>
      match header !! name with
      | Some (value :: _) => inl value
      | _ => requireHeader header names
      end
  end.

(** A name that gives no value: it is not in the header, or with an empty
    list of values. *)
Definition noValue (header : gmap string (list string)) (name : string) : Prop :=
  header !! name = None \/ header !! name = Some [].

End api.

(** * Properties of the ledger state *)

Section StateFacts.
Import wavelet.
Context `{Host}.

(** ** The store under SaveAccount and LoadAccount *)

Lemma SaveAccount_kv (s : state) (a : Account) (ds : list Delta) :
  kv (fst (SaveAccount s a ds)) =
    if put_fault (kv s) (merge BucketAccounts (PublicKey a)) (MarshalBinary a)
    then kv s
    else <[merge BucketAccounts (PublicKey a) := MarshalBinary a]> (kv s).
Proof.
  unfold SaveAccount, Put.
  destruct (put_fault _ _ _); reflexivity.
Qed.

Lemma SaveAccount_services (s : state) (a : Account) (ds : list Delta) :
  services (fst (SaveAccount s a ds)) = services s.
Proof.
  unfold SaveAccount, Put.
  destruct (put_fault _ _ _); reflexivity.
Qed.

Lemma SaveAccount_error (s : state) (a : Account) (ds : list Delta) :
  snd (SaveAccount s a ds) =
    if put_fault (kv s) (merge BucketAccounts (PublicKey a)) (MarshalBinary a)
    then Some ErrPut else None.
Proof.
  unfold SaveAccount, Put.
  destruct (put_fault _ _ _); reflexivity.
Qed.

Lemma LoadAccount_kv (s s' : state) (key : string) :
  kv s = kv s' -> LoadAccount s key = LoadAccount s' key.
Proof.
  intros E. unfold LoadAccount, Get. rewrite E. reflexivity.
Qed.

Lemma LoadAccount_absent (s : state) (key : string) :
  kv s !! merge BucketAccounts key = None ->
  LoadAccount s key = inr (Wrapf ErrGet "account %s not found in ledger state").
Proof.
  intros E. unfold LoadAccount, Get. rewrite E. reflexivity.
Qed.

(** Reading back a record that was just written. *)
Lemma LoadAccount_saved (s : state) (a : Account) (ds : list Delta) :
  put_fault (kv s) (merge BucketAccounts (PublicKey a)) (MarshalBinary a) = false ->
  Unmarshal (NewAccount (PublicKey a)) (MarshalBinary a) = inl a ->
  LoadAccount (fst (SaveAccount s a ds)) (PublicKey a) = inl a.
Proof.
  intros Hput Hrt. unfold LoadAccount, Get.
  rewrite SaveAccount_kv, Hput, lookup_insert_eq, Hrt.
  reflexivity.
Qed.

(** ** The loop over the services *)

(** The variable [deltas] declared before the loop comes out of it as it
    went in: the loop body assigns the variable that shadows it. *)
Lemma runServices_deltas (store : gmap string string) (tx : Transaction)
    (todo : list service) (deltas : list Delta) (pend : list Transaction)
    (sv : list service) (d : list Delta) (p : list Transaction) :
  runServices store tx todo deltas pend = (sv, inl (d, p)) -> d = deltas.
Proof.
  revert pend sv. induction todo as [|srv rest IH]; intros pend sv; simpl.
  - intros [= _ <- _]. reflexivity.
  - destruct (Run srv store tx) as [srv' [[d0 p0]|e]]; [|discriminate].
    destruct (runServices store tx rest deltas _) as [rest' out] eqn:E.
    intros [= _ ->]. eapply IH, E.
Qed.

Lemma saveAll_singleton (s : state) (id : string) (a : Account)
    (ds : gmap string (list Delta)) :
  saveAll s {[ id := a ]} ds = fst (SaveAccount s a (default [] (ds !! id))).
Proof.
  unfold saveAll. rewrite map_to_list_singleton. reflexivity.
Qed.

(** ** doApplyTransaction, path by path *)

Lemma doApplyTransaction_hex (s : state) (tx : Transaction) (e : error) :
  DecodeString (Sender tx) = inr e ->
  doApplyTransaction s tx = (s, inr e).
Proof.
  intros E. unfold doApplyTransaction. rewrite E. reflexivity.
Qed.

Lemma doApplyTransaction_nop (s : state) (tx : Transaction) (id : string) :
  String.eqb (Tag tx) "nop" = true ->
  DecodeString (Sender tx) = inl id ->
  doApplyTransaction s tx =
    match LoadAccount s id with
    | inl a => (fst (SaveAccount s (incrNonce a) []), inl [])
    | inr _ =>
        (s, inr (Errorf "nop transaction sender account %s does not exist" (Sender tx)))
    end.
Proof.
  intros Htag Hdec. unfold doApplyTransaction. rewrite Hdec, Htag.
  destruct (LoadAccount s id) as [a|e]; [|reflexivity].
  destruct (SaveAccount s (incrNonce a) []) as [s' o]. reflexivity.
Qed.

(** With the outer [deltas] still empty after the loop, the loop over the
    deltas does not run and the working set holds the sender only. *)
Lemma doApplyTransaction_services (s : state) (tx : Transaction) (id : string) :
  String.eqb (Tag tx) "nop" = false ->
  DecodeString (Sender tx) = inl id ->
  doApplyTransaction s tx =
    let '(sv, r) := runServices (kv s) tx (services s) [] [] in
    match r with
    | inr e => (withServices s sv, inr e)
    | inl (_, pend) =>
        match loadSender (withServices s sv) tx id with
        | inr e => (withServices s sv, inr e)
        | inl sender =>
            (fst (SaveAccount (withServices s sv) (incrNonce sender) []), inl pend)
        end
    end.
Proof.
  intros Htag Hdec. unfold doApplyTransaction. rewrite Hdec, Htag.
  destruct (runServices (kv s) tx (services s) [] []) as [sv [[d p]|e]] eqn:E;
    [|reflexivity].
  apply runServices_deltas in E as ->.
  destruct (loadSender (withServices s sv) tx id) as [sender|e]; [|reflexivity].
  cbn [foldl]. unfold writeString.
  rewrite insert_empty, alter_singleton, decide_True by reflexivity.
  rewrite saveAll_singleton, lookup_empty.
  reflexivity.
Qed.

Lemma tag_cases (tx : Transaction) :
  {String.eqb (Tag tx) "nop" = true} + {String.eqb (Tag tx) "nop" = false}.
Proof. destruct (String.eqb (Tag tx) "nop"); auto. Qed.

(** A call that returns an error has written nothing. *)
Lemma doApplyTransaction_error_kv (s s' : state) (tx : Transaction) (e : error) :
  doApplyTransaction s tx = (s', inr e) -> kv s' = kv s.
Proof.
  destruct (DecodeString (Sender tx)) as [id|e0] eqn:Hdec.
  2:{ rewrite (doApplyTransaction_hex _ _ _ Hdec). intros [= <- _]. reflexivity. }
  destruct (tag_cases tx) as [Htag|Htag].
  - rewrite (doApplyTransaction_nop _ _ _ Htag Hdec).
    destruct (LoadAccount s id); intros [= <- _]; reflexivity.
  - rewrite (doApplyTransaction_services _ _ _ Htag Hdec).
    destruct (runServices _ _ _ _ _) as [sv [[d p]|e1]].
    + destruct (loadSender _ _ _); intros [= <- _]; reflexivity.
    + intros [= <- _]. reflexivity.
Qed.

(** Whatever the services emit, a call writes at most one record, the
    sender's with its nonce incremented: no delta reaches the store. *)
Lemma doApplyTransaction_writes_sender_only
    (s s' : state) (tx : Transaction) (r : list Transaction + error) :
  doApplyTransaction s tx = (s', r) ->
  kv s' = kv s \/
  exists (id : string) (sender : Account),
    DecodeString (Sender tx) = inl id /\
    (LoadAccount s id = inl sender \/ sender = NewAccount id) /\
    kv s' =
      <[merge BucketAccounts (PublicKey sender) := MarshalBinary (incrNonce sender)]> (kv s).
Proof.
  assert (Hsave : forall (s0 : state) (a : Account),
            kv (fst (SaveAccount s0 (incrNonce a) [])) = kv s0 \/
            kv (fst (SaveAccount s0 (incrNonce a) [])) =
              <[merge BucketAccounts (PublicKey a) := MarshalBinary (incrNonce a)]> (kv s0)).
  { intros s0 a. rewrite SaveAccount_kv. cbn [incrNonce PublicKey].
    destruct (put_fault _ _ _); [left | right]; reflexivity. }
  destruct (DecodeString (Sender tx)) as [id|e0] eqn:Hdec.
  2:{ rewrite (doApplyTransaction_hex _ _ _ Hdec). intros [= <- _]. left. reflexivity. }
  destruct (tag_cases tx) as [Htag|Htag].
  - rewrite (doApplyTransaction_nop _ _ _ Htag Hdec).
    destruct (LoadAccount s id) as [a|e] eqn:Hload; intros [= <- _].
    + destruct (Hsave s a) as [Hkv|Hkv]; [left; exact Hkv|].
      right. exists id, a. repeat split; [left; exact Hload | exact Hkv].
    + left. reflexivity.
  - rewrite (doApplyTransaction_services _ _ _ Htag Hdec).
    destruct (runServices _ _ _ _ _) as [sv [[d p]|e1]].
    2:{ intros [= <- _]. left. reflexivity. }
    unfold loadSender.
    rewrite (LoadAccount_kv (withServices s sv) s id eq_refl).
    destruct (LoadAccount s id) as [a|e] eqn:Hload.
    + intros [= <- _].
      destruct (Hsave (withServices s sv) a) as [Hkv|Hkv]; [left; exact Hkv|].
      right. exists id, a. repeat split; [left; exact Hload | exact Hkv].
    + destruct (Nonce tx =? 0)%N; intros [= <- _]; [|left; reflexivity].
      destruct (Hsave (withServices s sv) (NewAccount id)) as [Hkv|Hkv];
        [left; exact Hkv|].
      right. exists id, (NewAccount id). repeat split; [right; reflexivity | exact Hkv].
Qed.

(** ** The queue of applyTransaction *)

(** A run that fails has applied a list of transactions without error and
    then met the one that failed. *)
Lemma drain_failure (fuel : nat) :
  forall (s : state) (pending trace : list Transaction) (out : outcome) (e : error),
  drain fuel s pending trace = Some out ->
  failure out = Some e ->
  exists (done : list Transaction) (t : Transaction) (s1 : state),
    applied out = trace ++ done ++ [t] /\
    applyAll s done = (s1, None) /\
    doApplyTransaction s1 t = (final out, inr e).
Proof.
  induction fuel as [|fuel IH]; intros s pending trace out e;
    destruct pending as [|tx pending]; simpl;
    try (intros [= <-]; discriminate); try discriminate.
  destruct (doApplyTransaction s tx) as [s1 [new|err]] eqn:Htx.
  - intros Hrun Hfail.
    destruct (IH _ _ _ _ _ Hrun Hfail) as (done & t & s2 & Happ & Hall & Hlast).
    exists (tx :: done), t, s2. split; [|split].
    + rewrite Happ, <- app_assoc. reflexivity.
    + simpl. rewrite Htx. exact Hall.
    + exact Hlast.
  - intros [= <-]. simpl. intros [= <-].
    exists [], tx, s. repeat split; assumption.
Qed.

Lemma applyLevels_cons (fuel : nat) (s : state) (tx : Transaction)
    (generation trace : list Transaction) :
  applyLevels (S fuel) s (tx :: generation) trace =
    finishGeneration fuel (applyGeneration s (tx :: generation) [] trace).
Proof.
  unfold finishGeneration. simpl.
  destruct (doApplyTransaction s tx) as [s1 [new|err]]; [|reflexivity].
  destruct (applyGeneration s1 generation _ _) as [[s2 tr2] [next|err]]; reflexivity.
Qed.

(** The queue holds the rest of the current generation, followed by what
    the generation has emitted so far. *)
Lemma drain_levels (fuel : nat) :
  forall (s : state) (cur next trace : list Transaction) (out : outcome),
  drain fuel s (cur ++ next) trace = Some out ->
  exists fuel', finishGeneration fuel' (applyGeneration s cur next trace) = Some out.
Proof.
  induction fuel as [|fuel IH]; intros s cur next trace out.
  - destruct cur as [|tx cur]; [destruct next as [|tx next]|]; simpl;
      try discriminate.
    intros [= <-]. exists O. reflexivity.
  - destruct cur as [|tx cur]; [destruct next as [|tx next]|].
    + simpl. intros [= <-]. exists O. reflexivity.
    + cbn [app drain applyGeneration finishGeneration].
      destruct (doApplyTransaction s tx) as [s1 [new|err]] eqn:Htx.
      * intros Hrun. destruct (IH _ _ _ _ _ Hrun) as [fuel' Hlev].
        exists (S fuel'). rewrite applyLevels_cons.
        cbn [applyGeneration]. rewrite Htx. exact Hlev.
      * intros [= <-]. exists 1%nat. rewrite applyLevels_cons.
        cbn [applyGeneration]. rewrite Htx. reflexivity.
    + cbn [app drain applyGeneration].
      destruct (doApplyTransaction s tx) as [s1 [new|err]] eqn:Htx.
      * rewrite <- app_assoc. intros Hrun. exact (IH _ _ _ _ _ Hrun).
      * intros [= <-]. exists O. reflexivity.
Qed.

Lemma levels_drain (fuel' : nat) :
  forall (cur : list Transaction) (s : state) (next trace : list Transaction)
         (out : outcome),
  finishGeneration fuel' (applyGeneration s cur next trace) = Some out ->
  exists fuel, drain fuel s (cur ++ next) trace = Some out.
Proof.
  induction fuel' as [|fuel' IHfuel]; intros cur;
    induction cur as [|tx cur IHcur]; intros s next trace out.
  - destruct next as [|tx next]; cbn [applyGeneration finishGeneration applyLevels];
      [|discriminate].
    intros [= <-]. exists O. reflexivity.
  - cbn [applyGeneration app].
    destruct (doApplyTransaction s tx) as [s1 [new|err]] eqn:Htx.
    + intros Hlev. destruct (IHcur _ _ _ _ Hlev) as [fuel Hrun].
      exists (S fuel). cbn [drain]. rewrite Htx, <- app_assoc. exact Hrun.
    + cbn [finishGeneration]. intros [= <-]. exists 1%nat.
      cbn [drain]. rewrite Htx. reflexivity.
  - destruct next as [|tx next]; cbn [applyGeneration finishGeneration].
    + intros [= <-]. exists O. reflexivity.
    + rewrite applyLevels_cons. intros Hlev.
      destruct (IHfuel _ _ _ _ _ Hlev) as [fuel Hrun].
      exists fuel. rewrite app_nil_r in Hrun. exact Hrun.
  - cbn [applyGeneration app].
    destruct (doApplyTransaction s tx) as [s1 [new|err]] eqn:Htx.
    + intros Hlev. destruct (IHcur _ _ _ _ Hlev) as [fuel Hrun].
      exists (S fuel). cbn [drain]. rewrite Htx, <- app_assoc. exact Hrun.
    + cbn [finishGeneration]. intros [= <-]. exists 1%nat.
      cbn [drain]. rewrite Htx. reflexivity.
Qed.

(** ** The claims on the execution engine *)

(** C2, as amended: when applyTransaction returns an error, the call of
    doApplyTransaction that failed has written nothing, and the store is the
    one left by the transactions of the tree that were applied, without
    error, before it. When the root itself fails the store is unchanged. *)
Theorem applyTransaction_failure_keeps_prefix
    (fuel : nat) (s : state) (tx : Transaction) (out : outcome) (e : error) :
  applyTransaction fuel s tx = Some out ->
  failure out = Some e ->
  exists (done : list Transaction) (t : Transaction) (s1 : state),
    applied out = done ++ [t] /\
    applyAll s done = (s1, None) /\
    doApplyTransaction s1 t = (final out, inr e) /\
    kv (final out) = kv s1 /\
    (done = [] -> kv (final out) = kv s).
Proof.
  intros Hrun Hfail.
  destruct (drain_failure _ _ _ _ _ _ Hrun Hfail) as (done & t & s1 & Happ & Hall & Hlast).
  exists done, t, s1. repeat split; try assumption.
  - eapply doApplyTransaction_error_kv, Hlast.
  - intros ->. simpl in Hall. injection Hall as <-.
    eapply doApplyTransaction_error_kv, Hlast.
Qed.

(** C5, as amended: for a transaction whose sender's record loads, the
    stored nonce after doApplyTransaction is the nonce before plus one
    modulo 2^64 when the transaction was accepted and the write of the
    sender's record went through, which is at least the nonce before plus
    one unless the nonce before was 2^64 - 1; it is the nonce before when
    the transaction was rejected. *)
Theorem nonce_after_apply
    (s s' : state) (tx : Transaction) (id : string) (a : Account)
    (r : list Transaction + error) :
  DecodeString (Sender tx) = inl id ->
  LoadAccount s id = inl a ->
  PublicKey a = id ->
  Unmarshal (NewAccount id) (MarshalBinary (incrNonce a)) = inl (incrNonce a) ->
  doApplyTransaction s tx = (s', r) ->
  storedNonce s id = Some (AccountNonce a) /\
  match r with
  | inl _ =>
      put_fault (kv s) (merge BucketAccounts id) (MarshalBinary (incrNonce a)) = false ->
      storedNonce s' id = Some ((AccountNonce a + 1) mod 2 ^ 64)%N /\
      ((AccountNonce a < uint64_max)%N ->
       storedNonce s' id = Some (AccountNonce a + 1)%N)
  | inr _ => storedNonce s' id = Some (AccountNonce a)
  end.
Proof.
  intros Hdec Hload Hpk Hrt Hrun.
  assert (Hbefore : storedNonce s id = Some (AccountNonce a))
    by (unfold storedNonce; rewrite Hload; reflexivity).
  split; [exact Hbefore|].
  assert (Hsaved : forall s0 : state, kv s0 = kv s ->
            put_fault (kv s) (merge BucketAccounts id) (MarshalBinary (incrNonce a)) = false ->
            storedNonce (fst (SaveAccount s0 (incrNonce a) [])) id
              = Some ((AccountNonce a + 1) mod 2 ^ 64)%N).
  { intros s0 Hkv Hput. unfold storedNonce.
    pose proof (LoadAccount_saved s0 (incrNonce a) []) as Hl.
    cbn [incrNonce PublicKey] in Hl. rewrite Hpk, Hkv in Hl.
    rewrite (Hl Hput Hrt). reflexivity. }
  assert (Hwrap : (AccountNonce a < uint64_max)%N ->
            ((AccountNonce a + 1) mod 2 ^ 64 = AccountNonce a + 1)%N).
  { unfold uint64_max. intros Hlt. apply N.mod_small.
    change (2 ^ 64)%N with 18446744073709551616%N. lia. }
  destruct r as [pend|e].
  - intros Hput.
    assert (Hafter : storedNonce s' id = Some ((AccountNonce a + 1) mod 2 ^ 64)%N).
    { destruct (tag_cases tx) as [Htag|Htag].
      - rewrite (doApplyTransaction_nop _ _ _ Htag Hdec), Hload in Hrun.
        injection Hrun as <- _. apply Hsaved; [reflexivity | exact Hput].
      - rewrite (doApplyTransaction_services _ _ _ Htag Hdec) in Hrun.
        destruct (runServices _ _ _ _ _) as [sv [[d p]|e1]]; [|discriminate].
        unfold loadSender in Hrun.
        rewrite (LoadAccount_kv (withServices s sv) s id eq_refl), Hload in Hrun.
        injection Hrun as <- _. apply Hsaved; [reflexivity | exact Hput]. }
    split; [exact Hafter|]. intros Hlt. rewrite Hafter, (Hwrap Hlt). reflexivity.
  - rewrite <- Hbefore. unfold storedNonce.
    rewrite (LoadAccount_kv s' s id (doApplyTransaction_error_kv _ _ _ _ Hrun)).
    reflexivity.
Qed.

(** C6: applyTransaction applies the tree of transactions in breadth-first
    order. Its runs are the runs that go generation by generation (the
    root, then every generation in the order of emission before any
    transaction of the next one): the same transactions in the same order,
    the same final state and the same error. *)
Theorem applyTransaction_breadth_first
    (s : state) (tx : Transaction) (out : outcome) :
  (exists fuel, applyTransaction fuel s tx = Some out) <->
  (exists fuel, applyLevels fuel s [tx] [] = Some out).
Proof.
  unfold applyTransaction. split; intros [fuel Hrun].
  - destruct (drain_levels fuel s [] [tx] [] out Hrun) as [fuel' Hlev].
    exists fuel'. exact Hlev.
  - destruct fuel as [|fuel]; [discriminate|].
    rewrite applyLevels_cons in Hrun.
    destruct (levels_drain fuel [tx] s [] [] out Hrun) as [fuel0 Hq].
    exists fuel0. exact Hq.
Qed.

(** C7, as amended: for a nop transaction whose sender's record loads, the
    call increments the nonce of the record by one modulo 2^64, hands the
    record to SaveAccount and returns no pending transactions; when the
    write goes through, the store holds the incremented record under the
    key of the account and is otherwise as before. When the record does not
    load, also for a transaction with nonce 0, the call returns an error
    and the state is the one it was given. A sender that is no hex string
    is an error too, with the state unchanged. *)
Theorem nop_transaction (s : state) (tx : Transaction) :
  Tag tx = "nop" ->
  match DecodeString (Sender tx) with
  | inr e => doApplyTransaction s tx = (s, inr e)
  | inl id =>
      match LoadAccount s id with
      | inl account =>
          doApplyTransaction s tx =
            (fst (SaveAccount s (incrNonce account) []), inl []) /\
          PublicKey (incrNonce account) = PublicKey account /\
          State (incrNonce account) = State account /\
          AccountNonce (incrNonce account) = ((AccountNonce account + 1) mod 2 ^ 64)%N /\
          (put_fault (kv s) (merge BucketAccounts (PublicKey account))
                     (MarshalBinary (incrNonce account)) = false ->
           kv (fst (doApplyTransaction s tx)) =
             <[merge BucketAccounts (PublicKey account) := MarshalBinary (incrNonce account)]>
               (kv s))
      | inr _ =>
          doApplyTransaction s tx =
            (s, inr (Errorf "nop transaction sender account %s does not exist" (Sender tx)))
      end
  end.
Proof.
  intros Htag.
  assert (Heqb : String.eqb (Tag tx) "nop" = true) by (rewrite Htag; reflexivity).
  destruct (DecodeString (Sender tx)) as [id|e] eqn:Hdec.
  2:{ exact (doApplyTransaction_hex _ _ _ Hdec). }
  rewrite (doApplyTransaction_nop _ _ _ Heqb Hdec).
  destruct (LoadAccount s id) as [account|e]; [|reflexivity].
  repeat split. intros Hput. cbn [fst].
  rewrite SaveAccount_kv. cbn [incrNonce PublicKey]. cbn [incrNonce] in Hput.
  rewrite Hput. reflexivity.
Qed.


End StateFacts.

(** ** Runs of the engine on the reference host *)

Section StateRuns.
Import wavelet.

(** C1: the transfer service emits a delta for carol's balance; the call
    succeeds and writes the sender's record only, and carol's record is not
    in the store afterwards. *)
Lemma emitted_delta_is_dropped :
  transferRun transferTx = inl ([transferDelta], []) /\
  doApplyTransaction (emptyState transferRun noFault) transferTx =
    (stateOf transferRun noFault bobAfter, inl []) /\
  LoadAccount (stateOf transferRun noFault bobAfter) carol =
    inr (Wrapf ErrGet "account %s not found in ledger state") /\
  storedValue (stateOf transferRun noFault bobAfter)
    (DeltaAccount transferDelta) (Key transferDelta) = None.
Proof.
  split; [reflexivity|].
  split; [reflexivity|].
  split; reflexivity.
Qed.

(** C2, the claim as stated fails: the contract transaction is applied and
    its sender's record written; the nop it emits fails, applyTransaction
    returns that error, and the record written for the root is still in the
    store. *)
Lemma applyTransaction_failure_changes_store :
  applyTransaction 2 (emptyState contractRun noFault) contractTx = Some contractOutcome /\
  failure contractOutcome =
    Some (Errorf "nop transaction sender account %s does not exist" aliceHex) /\
  kv (emptyState contractRun noFault) !! merge BucketAccounts bob = None /\
  kv (final contractOutcome) !! merge BucketAccounts bob = Some (encodeAccount bobAfter).
Proof.
  split; [reflexivity|].
  split; [reflexivity|].
  split; reflexivity.
Qed.

Lemma applyTransaction_failure_keeps_prefix_witness :
  applyTransaction 2 (emptyState contractRun noFault) contractTx = Some contractOutcome /\
  exists (done : list Transaction) (t : Transaction) (s1 : state),
    applied contractOutcome = done ++ [t] /\
    applyAll (emptyState contractRun noFault) done = (s1, None) /\
    doApplyTransaction s1 t =
      (final contractOutcome,
       inr (Errorf "nop transaction sender account %s does not exist" aliceHex)) /\
    kv (final contractOutcome) = kv s1 /\
    (done = [] -> kv (final contractOutcome) = kv (emptyState contractRun noFault)).
Proof.
  assert (E : applyTransaction 2 (emptyState contractRun noFault) contractTx
              = Some contractOutcome) by (reflexivity).
  split; [exact E|].
  exact (applyTransaction_failure_keeps_prefix (H:=contractHost) 2 _ _ _ _ E eq_refl).
Defined.

(** C3: every Put fails, SaveAccount returns the error, and
    doApplyTransaction returns no error, for a transfer and for a nop. *)
Lemma put_error_is_dropped :
  SaveAccount (emptyState transferRun allFault) bobAfter [] =
    (emptyState transferRun allFault, Some ErrPut) /\
  doApplyTransaction (emptyState transferRun allFault) transferTx =
    (emptyState transferRun allFault, inl []) /\
  SaveAccount (stateOf transferRun allFault (aliceAt 4)) (aliceAt 5) [] =
    (stateOf transferRun allFault (aliceAt 4), Some ErrPut) /\
  doApplyTransaction (stateOf transferRun allFault (aliceAt 4)) aliceNop =
    (stateOf transferRun allFault (aliceAt 4), inl []).
Proof.
  split; [reflexivity|].
  split; [reflexivity|].
  split; reflexivity.
Qed.

(** C5, the claim as stated fails. Alice's stored nonce is 2^64 - 1, her
    nop is accepted, and her stored nonce is 0 afterwards. And bob's stored
    nonce is 4, applyTransaction rejects his contract transaction with the
    error of the nop it emitted, and his stored nonce is 5 afterwards. *)
Lemma nonce_wraps_around :
  (doApplyTransaction (stateOf contractRun noFault (aliceAt uint64_max)) aliceNop =
     (stateOf contractRun noFault (aliceAt 0), inl []) /\
   storedNonce (stateOf contractRun noFault (aliceAt uint64_max)) alice =
     Some 18446744073709551615%N /\
   storedNonce (stateOf contractRun noFault (aliceAt 0)) alice = Some 0%N) /\
  (applyTransaction 2 (stateOf contractRun noFault (bobAt 4)) contractTx =
     Some bobOutcome /\
   failure bobOutcome =
     Some (Errorf "nop transaction sender account %s does not exist" aliceHex) /\
   storedNonce (stateOf contractRun noFault (bobAt 4)) bob = Some 4%N /\
   storedNonce (final bobOutcome) bob = Some 5%N).
Proof.
  split; repeat split; reflexivity.
Qed.

Lemma nonce_after_apply_witness :
  doApplyTransaction (stateOf contractRun noFault (aliceAt 4)) aliceNop =
    (stateOf contractRun noFault (aliceAt 5), inl []) /\
  storedNonce (stateOf contractRun noFault (aliceAt 4)) alice = Some 4%N /\
  storedNonce (stateOf contractRun noFault (aliceAt 5)) alice = Some 5%N.
Proof.
  assert (E : doApplyTransaction (stateOf contractRun noFault (aliceAt 4)) aliceNop =
                (stateOf contractRun noFault (aliceAt 5), inl []))
    by (reflexivity).
  assert (Hdec : DecodeString (Sender aliceNop) = inl alice)
    by (reflexivity).
  assert (Hload : LoadAccount (stateOf contractRun noFault (aliceAt 4)) alice
                  = inl (aliceAt 4)) by (reflexivity).
  assert (Hrt : Unmarshal (Host:=contractHost) (NewAccount alice)
                  (MarshalBinary (Host:=contractHost) (incrNonce (aliceAt 4)))
                = inl (incrNonce (aliceAt 4))) by (reflexivity).
  split; [exact E|].
  destruct (nonce_after_apply (H:=contractHost) _ _ aliceNop alice (aliceAt 4) _
              Hdec Hload eq_refl Hrt E) as [Hbefore Hafter].
  split; [exact Hbefore|].
  destruct (Hafter eq_refl) as [_ Hplus].
  apply Hplus. reflexivity.
Defined.

Lemma applyTransaction_breadth_first_witness :
  applyTransaction 5 (emptyState treeRun noFault) (leaf "a") = Some treeOutcome /\
  applied treeOutcome = [leaf "a"; leaf "b1"; leaf "b2"; leaf "c1"; leaf "c2"] /\
  exists fuel : nat,
    applyLevels fuel (emptyState treeRun noFault) [leaf "a"] [] = Some treeOutcome.
Proof.
  assert (Hrun : applyTransaction 5 (emptyState treeRun noFault) (leaf "a")
                 = Some treeOutcome) by (reflexivity).
  split; [exact Hrun|]. split; [reflexivity|].
  exact (proj1 (applyTransaction_breadth_first (H:=treeHost) _ _ treeOutcome)
           (ex_intro _ 5%nat Hrun)).
Defined.

(** C7, the claim as stated fails. Alice's record loads with nonce
    2^64 - 1, her nop is accepted with no pending transactions, and the
    record in the store afterwards has nonce 0, not the nonce before plus
    one. And where every Put fails, her record loads with nonce 4, her nop
    is accepted in the same way, and the record in the store still has
    nonce 4: nothing was saved. *)
Lemma nop_nonce_not_plus_one :
  (Tag aliceNop = "nop" /\
   LoadAccount (stateOf contractRun noFault (aliceAt uint64_max)) alice =
     inl (aliceAt uint64_max) /\
   AccountNonce (aliceAt uint64_max) = 18446744073709551615%N /\
   doApplyTransaction (stateOf contractRun noFault (aliceAt uint64_max)) aliceNop =
     (stateOf contractRun noFault (aliceAt 0), inl []) /\
   LoadAccount (stateOf contractRun noFault (aliceAt 0)) alice = inl (aliceAt 0) /\
   AccountNonce (aliceAt 0) = 0%N) /\
  (LoadAccount (stateOf transferRun allFault (aliceAt 4)) alice = inl (aliceAt 4) /\
   doApplyTransaction (stateOf transferRun allFault (aliceAt 4)) aliceNop =
     (stateOf transferRun allFault (aliceAt 4), inl []) /\
   storedNonce (stateOf transferRun allFault (aliceAt 4)) alice = Some 4%N).
Proof.
  split.
  - split; [reflexivity|]. split; [reflexivity|]. split; [reflexivity|].
    split; [reflexivity|]. split; reflexivity.
  - split; [reflexivity|]. split; reflexivity.
Qed.

Lemma nop_transaction_witness :
  doApplyTransaction (stateOf contractRun noFault (aliceAt 4)) aliceNop =
    (stateOf contractRun noFault (aliceAt 5), inl []) /\
  doApplyTransaction (emptyState contractRun noFault) aliceNop =
    (emptyState contractRun noFault,
     inr (Errorf "nop transaction sender account %s does not exist" aliceHex)).
Proof.
  split.
  - pose proof (nop_transaction (H:=contractHost)
                  (stateOf contractRun noFault (aliceAt 4)) aliceNop eq_refl) as W.
    change (DecodeString (Sender aliceNop)) with (@inl string error alice) in W.
    change (LoadAccount (stateOf contractRun noFault (aliceAt 4)) alice)
      with (@inl Account error (aliceAt 4)) in W.
    destruct W as [W _]. exact (eq_trans W eq_refl).
  - pose proof (nop_transaction (H:=contractHost)
                  (emptyState contractRun noFault) aliceNop eq_refl) as W.
    change (DecodeString (Sender aliceNop)) with (@inl string error alice) in W.
    change (LoadAccount (emptyState contractRun noFault) alice)
      with (@inr Account error (Wrapf ErrGet "account %s not found in ledger state"))
      in W.
    exact W.
Defined.



End StateRuns.

(** * Properties of the protocol handlers *)

Section NodeFacts.
Import node.
Context `{LedgerAPI} `{Blake2b}.

(** ** The chunk cache *)

Lemma find_elem_of (key val : list byte) (l : list (list byte * list byte)) :
  find key l = Some val -> (key, val) ∈ l.
Proof.
  induction l as [|[k v] l IH]; simpl; [discriminate|].
  destruct (decide (k = key)) as [->|Hne].
  - intros [= ->]. apply list_elem_of_here.
  - intros Hfind. apply list_elem_of_further, IH, Hfind.
Qed.

Lemma coherent_new (n : nat) : coherent (newLRU n).
Proof. intros key val Hin. simpl in Hin. inversion Hin. Qed.

Lemma coherent_put (c : lru) (chunk : list byte) :
  coherent c -> coherent (put c (Sum256 chunk) chunk).
Proof.
  intros Hc key val Hin. unfold put in Hin. cbn [entries] in Hin.
  apply subseteq_take in Hin.
  apply elem_of_cons in Hin as [[= -> ->]|Hin]; [reflexivity|].
  apply list_elem_of_filter in Hin as [_ Hin]. exact (Hc _ _ Hin).
Qed.

Lemma coherent_load (c : lru) (key : list byte) :
  coherent c -> coherent (fst (load c key)).
Proof.
  intros Hc. unfold load.
  destruct (find key (entries c)) as [val|] eqn:Hfind; [|exact Hc].
  intros k v Hin. cbn [fst entries] in Hin.
  apply elem_of_cons in Hin as [[= -> ->]|Hin].
  - exact (Hc _ _ (find_elem_of _ _ _ Hfind)).
  - apply list_elem_of_filter in Hin as [_ Hin]. exact (Hc _ _ Hin).
Qed.

(** ** The loop that cuts the diff *)

Lemma slice_chunk (size : nat) (diff : list byte) (i : nat) :
  (0 < size)%nat -> (i < length diff)%nat ->
  let end_ := if (length diff <? i + size)%nat then length diff else (i + size)%nat in
  slice diff i end_ ++ drop (i + size) diff = drop i diff /\
  (0 < length (slice diff i end_) <= size)%nat.
Proof.
  intros Hsize Hi. unfold slice.
  destruct (length diff <? i + size)%nat eqn:Hlt; cbn zeta.
  - apply Nat.ltb_lt in Hlt.
    rewrite (take_ge (drop i diff)) by (rewrite length_drop; lia).
    rewrite (drop_ge diff (i + size)) by lia.
    rewrite app_nil_r, length_drop. split; [reflexivity | lia].
  - apply Nat.ltb_ge in Hlt.
    replace (i + size - i)%nat with size by lia.
    rewrite <- (drop_drop diff size i), take_drop.
    rewrite length_take, length_drop. split; [reflexivity | lia].
Qed.

Lemma chunkLoop_chunks (size : nat) (diff : list byte) :
  (0 < size)%nat ->
  forall (fuel i : nat) (cache : lru) (hashes : list (list byte)),
  (length diff <= i + fuel)%nat ->
  exists chunks : list (list byte),
    concat chunks = drop i diff /\
    Forall (fun c => (0 < length c <= size)%nat) chunks /\
    chunkLoop size fuel diff i cache hashes =
      (foldl putChunk cache chunks, hashes ++ map Sum256 chunks).
Proof.
  intros Hsize. induction fuel as [|fuel IH]; intros i cache hashes Hfuel.
  - exists []. rewrite drop_ge by lia. simpl. rewrite app_nil_r.
    repeat split. constructor.
  - cbn [chunkLoop]. destruct (i <? length diff)%nat eqn:Hi.
    + apply Nat.ltb_lt in Hi.
      destruct (slice_chunk size diff i Hsize Hi) as [Hcat Hlen].
      cbn zeta in Hcat, Hlen.
      set (end_ := if (length diff <? i + size)%nat then length diff else (i + size)%nat)
        in *.
      destruct (IH (i + size)%nat (put cache (Sum256 (slice diff i end_)) (slice diff i end_))
                  (hashes ++ [Sum256 (slice diff i end_)]))
        as (chunks & Hconcat & Hall & Hloop); [lia|].
      exists (slice diff i end_ :: chunks). split; [|split].
      * simpl. rewrite Hconcat. exact Hcat.
      * constructor; assumption.
      * rewrite Hloop. simpl. rewrite <- app_assoc. reflexivity.
    + apply Nat.ltb_ge in Hi. exists []. rewrite drop_ge by lia.
      simpl. rewrite app_nil_r. repeat split. constructor.
Qed.

Lemma coherent_foldl_put (chunks : list (list byte)) :
  forall c : lru, coherent c -> coherent (foldl putChunk c chunks).
Proof.
  induction chunks as [|chunk chunks IH]; intros c Hc; simpl; [exact Hc|].
  apply IH, coherent_put, Hc.
Qed.

Lemma syncChunkSize_value : Z.of_nat syncChunkSize = 1048576%Z.
Proof. unfold syncChunkSize. lia. Qed.

(** The response of the metadata handler, for any positive chunk size. *)
Lemma syncDiffMetadata_chunks (size : nat) (node : Node) (viewID : N) (cache : lru) :
  (0 < size)%nat ->
  exists chunks : list (list byte),
    concat chunks = DumpDiff (ledger node) viewID /\
    Forall (fun c => (0 < length c <= size)%nat) chunks /\
    syncDiffMetadata size node viewID cache =
      (foldl putChunk cache chunks,
       SyncDiffMetadataResponse (LedgerViewID (ledger node)) (map Sum256 chunks)).
Proof.
  intros Hsize. unfold syncDiffMetadata.
  destruct (chunkLoop_chunks size (DumpDiff (ledger node) viewID) Hsize
              (length (DumpDiff (ledger node) viewID)) 0 cache [])
    as (chunks & Hconcat & Hall & Hloop); [lia|].
  exists chunks. rewrite Hloop. repeat split; assumption.
Qed.

(** ** The cache along receiveLoop *)

Lemma serve_coherent (st : Node * Peer * lru) (req : request) :
  coherent (snd st) -> coherent (snd (serve st req)).
Proof.
  destruct st as [[node peer] cache]. cbn [snd]. intros Hc.
  destruct req; cbn [serve].
  - destruct (handleGossipRequest node peer TX). exact Hc.
  - destruct (handleQueryRequest node peer tx). exact Hc.
  - destruct (handleSyncViewRequest node peer root). exact Hc.
  - unfold handleSyncDiffMetadataRequest.
    destruct (syncDiffMetadata_chunks syncChunkSize node viewID cache)
      as (chunks & _ & _ & ->); [unfold syncChunkSize; lia|].
    cbn [snd]. apply coherent_foldl_put, Hc.
  - unfold handleSyncDiffChunkRequest, syncDiffChunk.
    pose proof (coherent_load cache chunkHash Hc) as Hl.
    destruct (load cache chunkHash) as [cache' [chunk|]]; exact Hl.
  - destruct (handleSyncTransactionRequest node peer ids). exact Hc.
Qed.

Lemma foldl_serve_coherent (reqs : list request) :
  forall st : Node * Peer * lru,
  coherent (snd st) -> coherent (snd (foldl serve st reqs)).
Proof.
  induction reqs as [|req reqs IH]; intros st Hc; simpl; [exact Hc|].
  apply IH, serve_coherent, Hc.
Qed.

Lemma receiveLoop_coherent (node : Node) (peer : Peer) (reqs : list request) :
  coherent (snd (receiveLoop node peer reqs)).
Proof.
  unfold receiveLoop. apply foldl_serve_coherent, coherent_new.
Qed.

(** ** The send of a response *)

Lemma reply_sent (peer : Peer) (res : message) :
  sendFails peer = false ->
  outbox (reply peer res) = outbox peer ++ [res] /\
  disconnected (reply peer res) = disconnected peer.
Proof.
  intros Hs. unfold reply, SendMessageAsync. rewrite Hs. split; reflexivity.
Qed.

Lemma reply_failed (peer : Peer) (res : message) :
  sendFails peer = true ->
  outbox (reply peer res) = outbox peer /\ disconnected (reply peer res) = true.
Proof.
  intros Hs. unfold reply, SendMessageAsync. rewrite Hs. split; reflexivity.
Qed.

Lemma reply_outbox (peer : Peer) (res : message) :
  sendFails peer = false -> outbox (reply peer res) = outbox peer ++ [res].
Proof. intros Hs. exact (proj1 (reply_sent peer res Hs)). Qed.

(** ** The claims on the handlers *)

(** C4, as amended: the handler replies with the syncer's preferred root
    when there is one; with none, it replies with the peer's root, which it
    adopts as preferred, when that root is valid and its view id exceeds
    ours, and with our root otherwise. The peer's root is recorded exactly
    when it is valid; for an invalid root the syncer is left as it was.
    The ledger is not touched. The reply is the one message the handler
    sends to the peer. *)
Theorem sync_view_request (node : Node) (peer : Peer) (reqRoot : Transaction) :
  let '(node', peer') := handleSyncViewRequest node peer reqRoot in
  ledger node' = ledger node /\
  received node' = received node /\
  match AssertValidTransaction reqRoot, resolverPreferred (syncer node) with
  | Some _, Some preferred =>
      peer' = reply peer (SyncViewResponse (Some preferred)) /\
      (sendFails peer = false ->
       outbox peer' = outbox peer ++ [SyncViewResponse (Some preferred)]) /\
      syncer node' = syncer node
  | Some _, None =>
      peer' = reply peer (SyncViewResponse (Some (Root (ledger node)))) /\
      (sendFails peer = false ->
       outbox peer' = outbox peer ++ [SyncViewResponse (Some (Root (ledger node)))]) /\
      syncer node' = syncer node
  | None, Some preferred =>
      peer' = reply peer (SyncViewResponse (Some preferred)) /\
      (sendFails peer = false ->
       outbox peer' = outbox peer ++ [SyncViewResponse (Some preferred)]) /\
      syncer node' =
        recordRootFromAccount (syncer node) (PeerID peer) (ID reqRoot)
  | None, None =>
      if (LedgerViewID (ledger node) <? ViewID reqRoot)%N then
        peer' = reply peer (SyncViewResponse (Some reqRoot)) /\
        (sendFails peer = false ->
         outbox peer' = outbox peer ++ [SyncViewResponse (Some reqRoot)]) /\
        syncer node' =
          recordRootFromAccount (Prefer (syncer node) reqRoot) (PeerID peer) (ID reqRoot)
      else
        peer' = reply peer (SyncViewResponse (Some (Root (ledger node)))) /\
        (sendFails peer = false ->
         outbox peer' = outbox peer ++ [SyncViewResponse (Some (Root (ledger node)))]) /\
        syncer node' =
          recordRootFromAccount (syncer node) (PeerID peer) (ID reqRoot)
  end.
Proof.
  unfold handleSyncViewRequest, syncView.
  destruct (AssertValidTransaction reqRoot) as [err|];
    destruct (resolverPreferred (syncer node)) as [preferred|] eqn:Hpref;
    cbn [andb bool_decide];
    try (split; [reflexivity|]; split; [reflexivity|]; split; [reflexivity|];
         split; [apply reply_outbox | reflexivity]).
  - rewrite andb_false_r.
    split; [reflexivity|]. split; [reflexivity|]. split; [reflexivity|].
    split; [apply reply_outbox | reflexivity].
  - destruct (LedgerViewID (ledger node) <? ViewID reqRoot)%N;
      (split; [reflexivity|]; split; [reflexivity|]; split; [reflexivity|];
       split; [apply reply_outbox | reflexivity]).
Qed.

(** C9: after any requests of the peer, the metadata handler cuts the diff
    into consecutive chunks of at least one and at most 1,048,576 bytes,
    puts each chunk in the peer's cache under its blake2b-256 hash and
    sends the peer the hashes of the chunks in order; and a chunk request
    for a hash that is in the peer's cache is answered, in the message sent
    to the peer, with [found] set and bytes whose blake2b-256 hash is the
    requested one. When the send fails nothing is sent and the peer is
    disconnected. *)
Theorem sync_diff_chunks
    (node : Node) (peer : Peer) (reqs : list request) (viewID : N)
    (chunkHash : list byte) :
  let '(node0, peer0, cache0) := receiveLoop node peer reqs in
  (exists chunks : list (list byte),
     concat chunks = DumpDiff (ledger node0) viewID /\
     Forall (fun c => (0 < Z.of_nat (length c) <= 1048576)%Z) chunks /\
     handleSyncDiffMetadataRequest node0 peer0 viewID cache0 =
       (foldl putChunk cache0 chunks,
        reply peer0 (SyncDiffMetadataResponse (LedgerViewID (ledger node0))
                       (map Sum256 chunks))) /\
     coherent (foldl putChunk cache0 chunks) /\
     (sendFails peer0 = false ->
      outbox (snd (handleSyncDiffMetadataRequest node0 peer0 viewID cache0)) =
        outbox peer0 ++
        [SyncDiffMetadataResponse (LedgerViewID (ledger node0)) (map Sum256 chunks)] /\
      disconnected (snd (handleSyncDiffMetadataRequest node0 peer0 viewID cache0)) =
        disconnected peer0) /\
     (sendFails peer0 = true ->
      outbox (snd (handleSyncDiffMetadataRequest node0 peer0 viewID cache0)) =
        outbox peer0 /\
      disconnected (snd (handleSyncDiffMetadataRequest node0 peer0 viewID cache0)) =
        true)) /\
  match find chunkHash (entries cache0) with
  | Some chunk =>
      handleSyncDiffChunkRequest node0 peer0 chunkHash cache0 =
        (fst (load cache0 chunkHash),
         reply peer0 (SyncDiffChunkResponse true chunk)) /\
      Sum256 chunk = chunkHash /\
      (sendFails peer0 = false ->
       outbox (snd (handleSyncDiffChunkRequest node0 peer0 chunkHash cache0)) =
         outbox peer0 ++ [SyncDiffChunkResponse true chunk] /\
       disconnected (snd (handleSyncDiffChunkRequest node0 peer0 chunkHash cache0)) =
         disconnected peer0) /\
      (sendFails peer0 = true ->
       outbox (snd (handleSyncDiffChunkRequest node0 peer0 chunkHash cache0)) =
         outbox peer0 /\
       disconnected (snd (handleSyncDiffChunkRequest node0 peer0 chunkHash cache0)) =
         true)
  | None =>
      handleSyncDiffChunkRequest node0 peer0 chunkHash cache0 =
        (cache0, reply peer0 (SyncDiffChunkResponse false [])) /\
      (sendFails peer0 = false ->
       outbox (snd (handleSyncDiffChunkRequest node0 peer0 chunkHash cache0)) =
         outbox peer0 ++ [SyncDiffChunkResponse false []])
  end.
Proof.
  pose proof (receiveLoop_coherent node peer reqs) as Hc.
  destruct (receiveLoop node peer reqs) as [[node0 peer0] cache0].
  cbn [snd] in Hc. split.
  - destruct (syncDiffMetadata_chunks syncChunkSize node0 viewID cache0)
      as (chunks & Hconcat & Hall & Hres); [unfold syncChunkSize; lia|].
    assert (Hrun : handleSyncDiffMetadataRequest node0 peer0 viewID cache0 =
              (foldl putChunk cache0 chunks,
               reply peer0 (SyncDiffMetadataResponse (LedgerViewID (ledger node0))
                              (map Sum256 chunks))))
      by (unfold handleSyncDiffMetadataRequest; rewrite Hres; reflexivity).
    exists chunks. rewrite Hrun. cbn [snd].
    split; [exact Hconcat|]. split.
    { eapply Forall_impl; [exact Hall|]. intros c Hlen. cbn beta in Hlen.
      pose proof syncChunkSize_value. lia. }
    split; [reflexivity|]. split; [apply coherent_foldl_put, Hc|].
    split; [apply reply_sent | apply reply_failed].
  - destruct (find chunkHash (entries cache0)) as [chunk|] eqn:Hfind.
    + assert (Hrun : handleSyncDiffChunkRequest node0 peer0 chunkHash cache0 =
                (fst (load cache0 chunkHash),
                 reply peer0 (SyncDiffChunkResponse true chunk)))
        by (unfold handleSyncDiffChunkRequest, syncDiffChunk, load;
            rewrite Hfind; reflexivity).
      rewrite Hrun. cbn [snd]. split; [reflexivity|].
      split; [exact (Hc _ _ (find_elem_of _ _ _ Hfind))|].
      split; [apply reply_sent | apply reply_failed].
    + assert (Hrun : handleSyncDiffChunkRequest node0 peer0 chunkHash cache0 =
                (cache0, reply peer0 (SyncDiffChunkResponse false [])))
        by (unfold handleSyncDiffChunkRequest, syncDiffChunk, load;
            rewrite Hfind; reflexivity).
      rewrite Hrun. cbn [snd]. split; [reflexivity | apply reply_outbox].
Qed.

(** C10: while the broadcaster is paused, the query handler sends the peer
    the zero QueryResponse, with no preferred transaction, as its one
    message, and leaves the node as it was: ReceiveTransaction is not
    called and the ledger is unchanged. When the send fails nothing is sent
    and the peer is disconnected. *)
Theorem paused_query_request (node : Node) (peer : Peer) (reqTx : Transaction) :
  Paused node = true ->
  handleQueryRequest node peer reqTx = (node, reply peer (QueryResponse None)) /\
  received (fst (handleQueryRequest node peer reqTx)) = received node /\
  ledger (fst (handleQueryRequest node peer reqTx)) = ledger node /\
  (sendFails peer = false ->
   outbox (snd (handleQueryRequest node peer reqTx)) =
     outbox peer ++ [QueryResponse None] /\
   disconnected (snd (handleQueryRequest node peer reqTx)) = disconnected peer) /\
  (sendFails peer = true ->
   outbox (snd (handleQueryRequest node peer reqTx)) = outbox peer /\
   disconnected (snd (handleQueryRequest node peer reqTx)) = true).
Proof.
  intros Hpaused. unfold handleQueryRequest. rewrite Hpaused. cbn [fst snd].
  split; [reflexivity|]. split; [reflexivity|]. split; [reflexivity|].
  split; [apply reply_sent | apply reply_failed].
Qed.

End NodeFacts.

(** ** Runs of the handlers *)

Section NodeRuns.
Import node.

(** C4, the claim as stated fails: our view id is 3, the peer's root has
    view id 9 and the resolver prefers nothing. If the peer's root is
    valid, the reply is the peer's root and not ours; if it is not valid,
    the peer's root is not recorded. *)
Lemma sync_view_reply_and_record :
  resolverPreferred (syncer (viewNode acceptAll false)) = None /\
  Root (ledger (viewNode acceptAll false)) = ourRoot /\
  outbox (snd (handleSyncViewRequest (viewNode acceptAll false) somePeer peerRoot)) =
    [SyncViewResponse (Some peerRoot)] /\
  recorded (syncer (fst (handleSyncViewRequest (viewNode acceptAll false) somePeer peerRoot)))
    = [(PeerID somePeer, ID peerRoot)] /\
  outbox (snd (handleSyncViewRequest (viewNode rejectAll false) somePeer peerRoot)) =
    [SyncViewResponse (Some ourRoot)] /\
  recorded (syncer (fst (handleSyncViewRequest (viewNode rejectAll false) somePeer peerRoot)))
    = [].
Proof.
  repeat split; reflexivity.
Qed.

Lemma paused_query_request_witness :
  handleQueryRequest (viewNode acceptAll true) somePeer peerRoot =
    (viewNode acceptAll true, reply somePeer (QueryResponse None)) /\
  outbox (snd (handleQueryRequest (viewNode acceptAll true) somePeer peerRoot)) =
    [QueryResponse None] /\
  received (fst (handleQueryRequest (viewNode acceptAll true) somePeer peerRoot)) = [] /\
  received (fst (handleQueryRequest (viewNode acceptAll false) somePeer peerRoot))
    = [peerRoot].
Proof.
  destruct (paused_query_request (H:=viewAPI acceptAll)
              (viewNode acceptAll true) somePeer peerRoot eq_refl)
    as (Hrun & Hrecv & _ & Hsent & _).
  split; [exact Hrun|]. split; [exact (proj1 (Hsent eq_refl))|].
  split; [exact Hrecv | reflexivity].
Defined.

Lemma sync_diff_chunks_witness :
  receiveLoop (H0:=identityHash) (diffNode false None) somePeer [SyncDiffMetadataRequest 7]
    = (diffNode false None, announcedPeer, fiveCache) /\
  outbox (snd (handleSyncDiffMetadataRequest (H0:=identityHash) (diffNode false None)
                 somePeer 7 (newLRU 1024))) =
    [SyncDiffMetadataResponse 3 [fiveBytes]] /\
  outbox (snd (handleSyncDiffChunkRequest (diffNode false None) announcedPeer
                 fiveBytes fiveCache)) =
    [SyncDiffMetadataResponse 3 [fiveBytes]; SyncDiffChunkResponse true fiveBytes].
Proof.
  assert (E : receiveLoop (H0:=identityHash) (diffNode false None) somePeer
                [SyncDiffMetadataRequest 7]
              = (diffNode false None, announcedPeer, fiveCache)) by reflexivity.
  split; [exact E|]. split; [reflexivity|].
  pose proof (sync_diff_chunks (H:=diffAPI) (H0:=identityHash) (diffNode false None)
                somePeer [SyncDiffMetadataRequest 7] 7 fiveBytes) as W.
  rewrite E in W. cbv beta iota in W. destruct W as [_ W].
  change (find fiveBytes (entries fiveCache)) with (Some fiveBytes) in W.
  cbv beta iota in W. destruct W as (_ & _ & Hsent & _).
  exact (proj1 (Hsent eq_refl)).
Defined.

(** The loop on a diff of five bytes with chunks of two: three chunks, the
    last one short. *)
Example chunkLoop_five :
  chunkLoop (H0:={| Sum256 := fun b => b |}) 2 5 [x01; x02; x03; x04; x05] 0 (newLRU 2) [] =
    ({| capacity := 2; entries := [([x05], [x05]); ([x03; x04], [x03; x04])] |},
     [[x01; x02]; [x03; x04]; [x05]]).
Proof. reflexivity. Qed.

End NodeRuns.

(** * More properties of the ledger state *)

Section StateMoreFacts.
Import wavelet.
Context `{Host}.

Lemma merge_bucket_inj (k k' : string) :
  merge BucketAccounts k = merge BucketAccounts k' -> k = k'.
Proof.
  unfold merge, BucketAccounts. simpl. intros [= E]. exact E.
Qed.

(** X1: a record saved without a fault of the store and decoded by the
    codec as it was encoded is what LoadAccount returns for its public key;
    the accounts of the other keys load as before, and the deltas handed to
    SaveAccount change nothing. *)
Theorem save_then_load (s : state) (a : Account) (ds : list Delta) :
  put_fault (kv s) (merge BucketAccounts (PublicKey a)) (MarshalBinary a) = false ->
  Unmarshal (NewAccount (PublicKey a)) (MarshalBinary a) = inl a ->
  SaveAccount s a ds = SaveAccount s a [] /\
  snd (SaveAccount s a ds) = None /\
  LoadAccount (fst (SaveAccount s a ds)) (PublicKey a) = inl a /\
  forall key : string, key <> PublicKey a ->
    LoadAccount (fst (SaveAccount s a ds)) key = LoadAccount s key.
Proof.
  intros Hput Hrt. split; [reflexivity|]. split; [|split].
  - rewrite SaveAccount_error, Hput. reflexivity.
  - apply LoadAccount_saved; assumption.
  - intros key Hne. unfold LoadAccount, Get.
    rewrite SaveAccount_kv, Hput, lookup_insert_ne; [reflexivity|].
    intros E. apply Hne. symmetry. exact (merge_bucket_inj _ _ E).
Qed.

(** X2: a nop reads the sender of the transaction only: two nops of one
    sender give the same result whatever their nonces and payloads, and no
    service is run. *)
Theorem nop_reads_sender_only (s : state) (tx tx' : Transaction) :
  Tag tx = "nop" -> Tag tx' = "nop" -> Sender tx = Sender tx' ->
  doApplyTransaction s tx = doApplyTransaction s tx' /\
  services (fst (doApplyTransaction s tx)) = services s.
Proof.
  intros Htag Htag' Hsender.
  assert (Heqb : String.eqb (Tag tx) "nop" = true) by (rewrite Htag; reflexivity).
  assert (Heqb' : String.eqb (Tag tx') "nop" = true) by (rewrite Htag'; reflexivity).
  destruct (DecodeString (Sender tx)) as [id|e] eqn:Hdec.
  - assert (Hdec' : DecodeString (Sender tx') = inl id) by (rewrite <- Hsender; exact Hdec).
    rewrite (doApplyTransaction_nop _ _ _ Heqb Hdec),
            (doApplyTransaction_nop _ _ _ Heqb' Hdec'), Hsender.
    split; [reflexivity|].
    destruct (LoadAccount s id) as [a|e]; [|reflexivity].
    cbn [fst]. apply SaveAccount_services.
  - assert (Hdec' : DecodeString (Sender tx') = inr e) by (rewrite <- Hsender; exact Hdec).
    rewrite (doApplyTransaction_hex _ _ _ Hdec), (doApplyTransaction_hex _ _ _ Hdec').
    split; reflexivity.
Qed.

Lemma failed_false (r : service * (list Delta * list Transaction + error)) :
  failed r = false -> exists d p, snd r = inl (d, p) /\ pendingOf r = p.
Proof.
  unfold failed, pendingOf. destruct (snd r) as [[d p]|e]; [|discriminate].
  intros _. exists d, p. split; reflexivity.
Qed.

Lemma runServices_all_succeed (store : gmap string string) (tx : Transaction)
    (todo : list service) :
  Forall (fun x => failed (Run x store tx) = false) todo ->
  forall (deltas : list Delta) (pend : list Transaction),
  runServices store tx todo deltas pend =
    (map (fun x => fst (Run x store tx)) todo,
     inl (deltas, pend ++ concat (map (fun x => pendingOf (Run x store tx)) todo))).
Proof.
  induction 1 as [|x todo Hx _ IH]; intros deltas pend; simpl.
  - rewrite app_nil_r. reflexivity.
  - destruct (failed_false _ Hx) as (d & p & Hr & Hp). rewrite Hp.
    destruct (Run x store tx) as [x' r]. cbn [snd fst] in *. subst r.
    rewrite IH.
    destruct p as [|t p]; cbn [length Nat.ltb Nat.leb app].
    + reflexivity.
    + rewrite <- app_assoc. reflexivity.
Qed.

(** X3: the services run in the order of their registration on the same
    transaction and the same store, and what they emit as pending
    transactions is appended in that order. The first service that fails
    ends the loop with its error: the services after it are not run. *)
Theorem runServices_in_order_until_error
    (store : gmap string string) (tx : Transaction)
    (before : list service) (srv : service) (after : list service)
    (deltas : list Delta) (pend : list Transaction) :
  Forall (fun x => failed (Run x store tx) = false) before ->
  runServices store tx before deltas pend =
    (map (fun x => fst (Run x store tx)) before,
     inl (deltas, pend ++ concat (map (fun x => pendingOf (Run x store tx)) before))) /\
  (failed (Run srv store tx) = true ->
   exists e : error,
     snd (Run srv store tx) = inr e /\
     runServices store tx (before ++ srv :: after) deltas pend =
       (map (fun x => fst (Run x store tx)) before ++ fst (Run srv store tx) :: after,
        inr e)).
Proof.
  intros Hok. split; [apply runServices_all_succeed, Hok|].
  intros Hfail. unfold failed in Hfail.
  destruct (Run srv store tx) as [srv' [r|e]] eqn:Hsrv; [discriminate|].
  exists e. split; [reflexivity|]. cbn [fst]. clear Hfail.
  revert pend. induction Hok as [|x todo Hx _ IH]; intros pend; simpl.
  - rewrite Hsrv. reflexivity.
  - destruct (failed_false _ Hx) as (d & p & Hr & _).
    destruct (Run x store tx) as [x' r]. cbn [snd fst] in *. subst r.
    rewrite IH. reflexivity.
Qed.

Lemma drain_success (fuel : nat) :
  forall (s : state) (pending trace : list Transaction) (out : outcome),
  drain fuel s pending trace = Some out ->
  failure out = None ->
  exists run emitted : list Transaction,
    applied out = trace ++ run /\
    run = pending ++ emitted /\
    applyEmitting s run = (final out, emitted, None).
Proof.
  induction fuel as [|fuel IH]; intros s pending trace out;
    destruct pending as [|tx pending]; simpl; try discriminate.
  - intros [= <-] _. exists [], []. rewrite app_nil_r. repeat split.
  - intros [= <-] _. exists [], []. rewrite app_nil_r. repeat split.
  - destruct (doApplyTransaction s tx) as [s1 [new|err]] eqn:Htx.
    + intros Hrun Hok.
      destruct (IH _ _ _ _ Hrun Hok) as (run & emitted & Happ & Hq & Hem).
      exists (tx :: run), (new ++ emitted). split; [|split].
      * rewrite Happ, <- app_assoc. reflexivity.
      * rewrite Hq, <- app_assoc. reflexivity.
      * simpl. rewrite Htx, Hem. reflexivity.
    + intros [= <-]. discriminate.
Qed.

(** X4: in a run of applyTransaction that returns no error, the
    transactions applied are the root followed by the transactions that the
    applied ones emitted, in the order of emission: every emitted
    transaction is applied, once, and nothing else is. *)
Theorem applied_is_root_then_emitted
    (fuel : nat) (s : state) (tx : Transaction) (out : outcome) :
  applyTransaction fuel s tx = Some out ->
  failure out = None ->
  exists emitted : list Transaction,
    applied out = tx :: emitted /\
    applyEmitting s (applied out) = (final out, emitted, None).
Proof.
  intros Hrun Hok.
  destruct (drain_success _ _ _ _ _ Hrun Hok) as (run & emitted & Happ & Hq & Hem).
  simpl in Happ, Hq. rewrite <- Happ in Hq, Hem.
  exists emitted. split; [exact Hq | exact Hem].
Qed.

Lemma incr64_twice (n : N) : incr64 (incr64 n) = ((n + 2) mod 2 ^ 64)%N.
Proof.
  unfold incr64. rewrite N.Div0.add_mod_idemp_l. f_equal. lia.
Qed.

(** X5: doApplyTransaction does not compare the nonce of a transaction with
    the stored nonce: a nop applied twice is accepted twice, and the stored
    nonce is then the first one plus 2, modulo 2^64 (when the two writes go
    through and the codec decodes the two records as they were encoded). *)
Theorem nop_replay_is_accepted
    (s : state) (tx : Transaction) (id : string) (a : Account) :
  Tag tx = "nop" ->
  DecodeString (Sender tx) = inl id ->
  LoadAccount s id = inl a ->
  PublicKey a = id ->
  put_fault (kv s) (merge BucketAccounts id) (MarshalBinary (incrNonce a)) = false ->
  put_fault (<[merge BucketAccounts id := MarshalBinary (incrNonce a)]> (kv s))
    (merge BucketAccounts id) (MarshalBinary (incrNonce (incrNonce a))) = false ->
  Unmarshal (NewAccount id) (MarshalBinary (incrNonce a)) = inl (incrNonce a) ->
  Unmarshal (NewAccount id) (MarshalBinary (incrNonce (incrNonce a)))
    = inl (incrNonce (incrNonce a)) ->
  exists s1 s2 : state,
    doApplyTransaction s tx = (s1, inl []) /\
    doApplyTransaction s1 tx = (s2, inl []) /\
    LoadAccount s2 id = inl (incrNonce (incrNonce a)) /\
    storedNonce s2 id = Some ((AccountNonce a + 2) mod 2 ^ 64)%N.
Proof.
  intros Htag Hdec Hload Hpk Hput1 Hput2 Hrt1 Hrt2.
  assert (Heqb : String.eqb (Tag tx) "nop" = true) by (rewrite Htag; reflexivity).
  assert (Hstep : forall (s0 : state) (b : Account),
            LoadAccount s0 id = inl b -> PublicKey b = id ->
            put_fault (kv s0) (merge BucketAccounts id) (MarshalBinary (incrNonce b)) = false ->
            Unmarshal (NewAccount id) (MarshalBinary (incrNonce b)) = inl (incrNonce b) ->
            doApplyTransaction s0 tx = (fst (SaveAccount s0 (incrNonce b) []), inl []) /\
            LoadAccount (fst (SaveAccount s0 (incrNonce b) [])) id = inl (incrNonce b)).
  { intros s0 b Hb Hkey Hput Hrt.
    rewrite (doApplyTransaction_nop _ _ _ Heqb Hdec), Hb. split; [reflexivity|].
    pose proof (LoadAccount_saved s0 (incrNonce b) []) as Hl.
    cbn [incrNonce PublicKey] in Hl. rewrite Hkey in Hl.
    apply Hl; assumption. }
  destruct (Hstep s a Hload Hpk Hput1 Hrt1) as [Hrun1 Hload1].
  assert (Hkv1 : kv (fst (SaveAccount s (incrNonce a) [])) =
                 <[merge BucketAccounts id := MarshalBinary (incrNonce a)]> (kv s)).
  { rewrite SaveAccount_kv. cbn [incrNonce PublicKey]. rewrite Hpk, Hput1. reflexivity. }
  rewrite <- Hkv1 in Hput2.
  destruct (Hstep _ (incrNonce a) Hload1 Hpk Hput2 Hrt2) as [Hrun2 Hload2].
  eexists. eexists. split; [exact Hrun1|]. split; [exact Hrun2|].
  split; [exact Hload2|].
  unfold storedNonce. rewrite Hload2. cbn [incrNonce AccountNonce].
  rewrite incr64_twice. reflexivity.
Qed.

(** ** The loop over the deltas *)

Lemma applyChange_writes (s : state)
    (acc : gmap string Account * gmap string (list Delta)) (d : Delta) :
  exists a : Account,
    fst (applyChange s acc d) !! DeltaAccount d = Some a /\
    State a !! Key d = Some (NewValue d).
Proof.
  destruct acc as [accounts ad]. unfold applyChange, writeString. cbn [fst].
  eexists. split; [apply lookup_insert_eq|].
  unfold storeState, Store. cbn [State]. apply lookup_insert_eq.
Qed.

Lemma applyChange_keeps (s : state)
    (acc : gmap string Account * gmap string (list Delta)) (d d' : Delta)
    (a : Account) (v : string) :
  fst acc !! DeltaAccount d = Some a ->
  State a !! Key d = Some v ->
  ~ sameSlot d d' ->
  exists a' : Account,
    fst (applyChange s acc d') !! DeltaAccount d = Some a' /\
    State a' !! Key d = Some v.
Proof.
  destruct acc as [accounts ad]. cbn [fst]. intros Ha Hv Hslot.
  unfold applyChange, writeString. cbn [fst].
  destruct (decide (DeltaAccount d' = DeltaAccount d)) as [E|Hne].
  - rewrite E, Ha. eexists. split; [apply lookup_insert_eq|].
    unfold storeState, Store. cbn [State].
    rewrite lookup_insert_ne; [exact Hv|].
    intros Hk. apply Hslot. split; assumption.
  - exists a. rewrite lookup_insert_ne by exact Hne. split; assumption.
Qed.

(** X6: in the loop of doApplyTransaction over a list of deltas, the last
    delta for a key of an account's state wins: after the loop the working
    set holds the account, and its state has the new value of that delta
    under the key. *)
Theorem delta_loop_last_write_wins (s : state)
    (acc : gmap string Account * gmap string (list Delta))
    (before : list Delta) (d : Delta) (after : list Delta) :
  Forall (fun d' => ~ sameSlot d d') after ->
  exists a : Account,
    fst (foldl (applyChange s) acc (before ++ d :: after)) !! DeltaAccount d = Some a /\
    State a !! Key d = Some (NewValue d).
Proof.
  intros Hafter. rewrite foldl_app. cbn [foldl].
  destruct (applyChange_writes s (foldl (applyChange s) acc before) d) as (a & Ha & Hv).
  revert a Ha Hv.
  generalize (applyChange s (foldl (applyChange s) acc before) d).
  induction Hafter as [|d' after Hd' _ IH]; intros acc' a Ha Hv; cbn [foldl].
  - exists a. split; assumption.
  - destruct (applyChange_keeps s acc' d d' a _ Ha Hv Hd') as (a' & Ha' & Hv').
    exact (IH _ _ Ha' Hv').
Qed.

(** X7: the loop files every delta under its account, in the order of the
    deltas: after the loop the list kept for an account is the list it had
    before followed by the deltas of that account. *)
Theorem delta_loop_groups_by_account (s : state) (deltas : list Delta) :
  forall (acc : gmap string Account * gmap string (list Delta)) (k : string),
  default [] (snd (foldl (applyChange s) acc deltas) !! k) =
    default [] (snd acc !! k) ++ filter (fun d => DeltaAccount d = k) deltas.
Proof.
  induction deltas as [|d deltas IH]; intros [accounts ad] k; cbn [foldl snd].
  - rewrite app_nil_r. reflexivity.
  - rewrite IH. unfold applyChange, writeString. cbn [snd].
    destruct (decide (DeltaAccount d = k)) as [E|Hne].
    + rewrite filter_cons_True by exact E. rewrite E, lookup_insert_eq.
      simpl. rewrite <- app_assoc. reflexivity.
    + rewrite filter_cons_False by exact Hne.
      rewrite lookup_insert_ne by exact Hne. reflexivity.
Qed.

End StateMoreFacts.

(** ** Registration *)

Section RegistrationFacts.
Import wavelet.
Context `{Loader}.

Lemma registerService_cases (m : state) (name path : string) :
  (snd (registerService m name path) <> None /\ fst (registerService m name path) = m) \/
  (exists (code : string) (vm : VirtualMachine) (entry : N),
     HasSuffix path ".wasm" = true /\
     ReadFile path = inl code /\
     NewVirtualMachine code 128 65536 name = inl vm /\
     GetFunctionExport vm "process" = Some entry /\
     registerService m name path =
       ({| kv := kv m; services := services m ++ [registeredService name vm entry] |},
        None)).
Proof.
  unfold registerService.
  destruct (HasSuffix path ".wasm") eqn:Hsuffix; cbn [negb];
    [|left; split; [discriminate | reflexivity]].
  destruct (ReadFile path) as [code|e] eqn:Hread;
    [|left; split; [discriminate | reflexivity]].
  destruct (NewVirtualMachine code 128 65536 name) as [vm|e] eqn:Hvm;
    [|left; split; [discriminate | reflexivity]].
  destruct (GetFunctionExport vm "process") as [entry|] eqn:Hentry;
    [|left; split; [discriminate | reflexivity]].
  right. exists code, vm, entry. repeat split; assumption.
Qed.

(** X8: registerService either fails and leaves the state as it was, or
    appends exactly one service, made for the given name, after the ones
    already registered; it succeeds only for a path that ends in ".wasm",
    whose file can be read and loaded, and whose module exports "process".
    The store is never touched. *)
Theorem registerService_appends_or_keeps (m : state) (name path : string) :
  kv (fst (registerService m name path)) = kv m /\
  match snd (registerService m name path) with
  | Some _ => fst (registerService m name path) = m
  | None =>
      HasSuffix path ".wasm" = true /\
      exists (code : string) (vm : VirtualMachine) (entry : N),
        ReadFile path = inl code /\
        NewVirtualMachine code 128 65536 name = inl vm /\
        GetFunctionExport vm "process" = Some entry /\
        services (fst (registerService m name path)) =
          services m ++ [registeredService name vm entry]
  end.
Proof.
  destruct (registerService_cases m name path)
    as [[Herr Hsame]|(code & vm & entry & Hsuffix & Hread & Hvm & Hentry & Hrun)].
  - rewrite Hsame. split; [reflexivity|].
    destruct (snd (registerService m name path)); [reflexivity | contradiction].
  - rewrite Hrun. cbn [fst snd kv services]. split; [reflexivity|].
    split; [exact Hsuffix|]. exists code, vm, entry. repeat split; assumption.
Qed.

Lemma registerFiles_result (files : list string) :
  forall (m m' : state) (r : option error),
  registerFiles m files = Some (m', r) ->
  kv m' = kv m /\
  exists (done rest : list string) (added : list service),
    files = done ++ rest /\
    services m' = services m ++ added /\
    Forall2 serviceOf done added /\
    match r with
    | None => rest = []
    | Some err =>
        exists (f : string) (rest' : list string),
          rest = f :: rest' /\
          registerService m' (substring 0 (String.length (Base f) - 5) (Base f)) f =
            (m', Some err)
    end.
Proof.
  induction files as [|f files IH]; intros m m' r; cbn [registerFiles].
  - intros [= <- <-]. split; [reflexivity|]. exists [], [], [].
    split; [reflexivity|]. split; [rewrite app_nil_r; reflexivity|].
    split; [constructor | reflexivity].
  - destruct (String.length (Base f) <? 5)%nat; [discriminate|].
    destruct (registerService_cases m
                (substring 0 (String.length (Base f) - 5) (Base f)) f)
      as [[Herr Hsame]|(code & vm & entry & Hsuffix & Hread & Hvm & Hentry & Hrun)].
    + destruct (registerService m _ f) as [m1 [e|]] eqn:Hreg; cbn [fst snd] in *;
        [|contradiction].
      intros [= <- <-]. subst m1. split; [reflexivity|].
      exists [], (f :: files), [].
      split; [reflexivity|]. split; [rewrite app_nil_r; reflexivity|].
      split; [constructor|].
      exists f, files. split; [reflexivity | exact Hreg].
    + rewrite Hrun. intros Hrest.
      destruct (IH _ _ _ Hrest) as (Hkv & done & rest & added & Hfiles & Hserv & Hall & Hr).
      cbn [kv services] in Hkv, Hserv. split; [exact Hkv|].
      exists (f :: done), rest,
        (registeredService
           (substring 0 (String.length (Base f) - 5) (Base f)) vm entry :: added).
      split; [rewrite Hfiles; reflexivity|].
      split; [rewrite Hserv, <- app_assoc; reflexivity|].
      split; [|exact Hr].
      constructor; [|exact Hall].
      exists code, vm, entry. repeat split; assumption.
Qed.


End RegistrationFacts.

(** ** More runs of the engine on the reference host *)

Section StateMoreRuns.
Import wavelet.

Example HasSuffix_wasm :
  HasSuffix "svc/transfer.wasm" ".wasm" = true /\
  HasSuffix "transfer.wasm.bak" ".wasm" = false /\
  HasSuffix "asm" ".wasm" = false /\
  HasSuffix ".wasm" ".wasm" = true.
Proof. repeat split; reflexivity. Qed.

Lemma save_then_load_witness :
  LoadAccount (fst (SaveAccount (emptyState contractRun noFault) (aliceAt 4) [transferDelta]))
    alice = inl (aliceAt 4) /\
  LoadAccount (fst (SaveAccount (emptyState contractRun noFault) (aliceAt 4) [transferDelta]))
    bob = inr (Wrapf ErrGet "account %s not found in ledger state").
Proof.
  destruct (save_then_load (H:=contractHost) (emptyState contractRun noFault) (aliceAt 4)
              [transferDelta] eq_refl eq_refl) as (_ & _ & Hsame & Hother).
  split; [exact Hsame|].
  rewrite Hother; [reflexivity|]. intros E. discriminate E.
Defined.

Lemma nop_reads_sender_only_witness :
  doApplyTransaction (stateOf contractRun noFault (aliceAt 4)) aliceNop =
    doApplyTransaction (stateOf contractRun noFault (aliceAt 4)) aliceNopAgain /\
  services (fst (doApplyTransaction (stateOf contractRun noFault (aliceAt 4)) aliceNop))
    = [tt].
Proof.
  exact (nop_reads_sender_only (H:=contractHost) (stateOf contractRun noFault (aliceAt 4))
           aliceNop aliceNopAgain eq_refl eq_refl eq_refl).
Defined.

Lemma runServices_in_order_until_error_witness :
  runServices (H:=numberedHost) ∅ (leaf "t") [0; 1]%nat [] [] =
    ([0; 1]%nat, inl ([], [leaf "first"; leaf "second"])) /\
  runServices (H:=numberedHost) ∅ (leaf "t") [0; 1; 2; 0]%nat [] [] =
    ([0; 1; 2; 0]%nat, inr (ErrRun "third")).
Proof.
  assert (Hok : Forall (fun x : nat => failed (Run (Host:=numberedHost) x ∅ (leaf "t")) = false)
                  [0; 1]%nat) by (repeat constructor).
  destruct (runServices_in_order_until_error (H:=numberedHost) ∅ (leaf "t")
              [0; 1]%nat 2%nat [0%nat] [] [] Hok) as [Hall Hfail].
  split; [exact Hall|].
  destruct (Hfail eq_refl) as (e & He & Hrun).
  injection He as <-. exact Hrun.
Defined.

Lemma applied_is_root_then_emitted_witness :
  applyEmitting (emptyState treeRun noFault) bfsOrder =
    (final treeOutcome, [leaf "b1"; leaf "b2"; leaf "c1"; leaf "c2"], None).
Proof.
  assert (Hrun : applyTransaction 5 (emptyState treeRun noFault) (leaf "a")
                 = Some treeOutcome) by reflexivity.
  destruct (applied_is_root_then_emitted (H:=treeHost) 5 _ _ _ Hrun eq_refl)
    as (emitted & Happ & Hem).
  change (applied treeOutcome) with bfsOrder in Happ, Hem.
  injection Happ as <-. exact Hem.
Defined.

Lemma nop_replay_is_accepted_witness :
  doApplyTransaction (stateOf contractRun noFault (aliceAt 4)) aliceNop =
    (stateOf contractRun noFault (aliceAt 5), inl []) /\
  doApplyTransaction (stateOf contractRun noFault (aliceAt 5)) aliceNop =
    (stateOf contractRun noFault (aliceAt 6), inl []) /\
  storedNonce (stateOf contractRun noFault (aliceAt 6)) alice = Some 6%N.
Proof.
  destruct (nop_replay_is_accepted (H:=contractHost)
              (stateOf contractRun noFault (aliceAt 4)) aliceNop alice (aliceAt 4)
              eq_refl eq_refl eq_refl eq_refl eq_refl eq_refl eq_refl eq_refl)
    as (s1 & s2 & Hrun1 & Hrun2 & _ & _).
  assert (E1 : doApplyTransaction (stateOf contractRun noFault (aliceAt 4)) aliceNop =
                 (stateOf contractRun noFault (aliceAt 5), inl [])) by reflexivity.
  split; [exact E1|].
  split; reflexivity.
Defined.

Lemma delta_loop_last_write_wins_witness :
  exists a : Account,
    fst (foldl (applyChange (emptyState contractRun noFault)) (∅, ∅)
           ([earlierDelta] ++ transferDelta :: [stakeDelta])) !! carol = Some a /\
    State a !! "balance" = Some "10".
Proof.
  assert (Hafter : Forall (fun d' => ~ sameSlot transferDelta d') [stakeDelta]).
  { repeat constructor. intros [_ E]. discriminate E. }
  exact (delta_loop_last_write_wins (H:=contractHost) (emptyState contractRun noFault)
           (∅, ∅) [earlierDelta] transferDelta [stakeDelta] Hafter).
Defined.


End StateMoreRuns.

(** * More properties of the protocol handlers *)

Section NodeMoreFacts.
Import node.
Context `{LedgerAPI} `{Blake2b}.

(** ** One response for each request *)

Lemma reply_cases (peer : Peer) (res : message) :
  PeerID (reply peer res) = PeerID peer /\
  sendFails (reply peer res) = sendFails peer /\
  if sendFails peer then
    outbox (reply peer res) = outbox peer /\ disconnected (reply peer res) = true
  else
    outbox (reply peer res) = outbox peer ++ [res] /\
    disconnected (reply peer res) = disconnected peer.
Proof.
  unfold reply, SendMessageAsync, DisconnectAsync.
  destruct (sendFails peer) eqn:Hfails; cbn; rewrite ?Hfails; repeat split.
Qed.

Lemma serve_reply (node : Node) (peer : Peer) (cache : lru) (req : request) :
  exists res : message,
    answers req res = true /\
    snd (fst (serve (node, peer, cache) req)) = reply peer res.
Proof.
  destruct req; cbn [serve].
  - unfold handleGossipRequest. destruct (Paused node).
    + eexists. split; [|reflexivity]. reflexivity.
    + destruct (ReceiveTransaction (ledger node) TX). eexists. split; [|reflexivity].
      reflexivity.
  - unfold handleQueryRequest. destruct (Paused node).
    + eexists. split; [|reflexivity]. reflexivity.
    + destruct (ReceiveTransaction (ledger node) tx). eexists. split; [|reflexivity].
      reflexivity.
  - unfold handleSyncViewRequest. destruct (syncView node peer root).
    eexists. split; [|reflexivity]. reflexivity.
  - unfold handleSyncDiffMetadataRequest, syncDiffMetadata.
    destruct (chunkLoop _ _ _ _ _ _). eexists. split; [|reflexivity]. reflexivity.
  - unfold handleSyncDiffChunkRequest, syncDiffChunk.
    destruct (load cache chunkHash) as [c [chunk|]];
      eexists; (split; [|reflexivity]); reflexivity.
  - unfold handleSyncTransactionRequest. eexists. split; [|reflexivity]. reflexivity.
Qed.

(** X10: every handler sends one message, the response to its request:
    when the send goes through, the peer has got exactly that one message
    more and is not disconnected by the handler; when the send fails,
    nothing was sent and the peer is disconnected. *)
Theorem serve_sends_one_response
    (node : Node) (peer : Peer) (cache : lru) (req : request) :
  let peer' := snd (fst (serve (node, peer, cache) req)) in
  PeerID peer' = PeerID peer /\
  if sendFails peer then
    outbox peer' = outbox peer /\ disconnected peer' = true
  else
    exists res : message,
      answers req res = true /\
      outbox peer' = outbox peer ++ [res] /\
      disconnected peer' = disconnected peer.
Proof.
  cbn zeta. destruct (serve_reply node peer cache req) as (res & Hkind & ->).
  destruct (reply_cases peer res) as (Hid & _ & Hsend).
  split; [exact Hid|].
  destruct (sendFails peer); [exact Hsend|].
  exists res. destruct Hsend as [Hout Hdis]. repeat split; assumption.
Qed.

(** ** The transactions of a sync request *)

Lemma foldl_found (f : list byte -> option Transaction) (ids : list (list byte)) :
  forall acc : list Transaction,
  foldl (fun acc id => match f id with Some tx => acc ++ [tx] | None => acc end) acc ids
    = acc ++ omap f ids.
Proof.
  induction ids as [|id ids IH]; intros acc; simpl.
  - rewrite app_nil_r. reflexivity.
  - rewrite IH. destruct (f id) as [tx|]; [|reflexivity].
    rewrite <- app_assoc. reflexivity.
Qed.

(** X11: the response to a request for transactions holds the transactions
    of the ids that the ledger finds, in the order of the ids; an id that is
    not found is left out without an error, and the node is not changed.
    The response is the one message sent to the peer. *)
Theorem sync_transactions_found_in_order
    (node : Node) (peer : Peer) (ids : list (list byte)) :
  handleSyncTransactionRequest node peer ids =
    (node,
     reply peer (SyncTransactionResponse (omap (FindTransaction (ledger node)) ids))) /\
  (sendFails peer = false ->
   outbox (snd (handleSyncTransactionRequest node peer ids)) =
     outbox peer ++ [SyncTransactionResponse (omap (FindTransaction (ledger node)) ids)]).
Proof.
  unfold handleSyncTransactionRequest. rewrite foldl_found. cbn [snd].
  split; [reflexivity | apply reply_outbox].
Qed.

(** ** Gossip and query *)

Lemma isVoteAccepted_cause (err : option error) :
  isVoteAccepted err = true <-> exists e, err = Some e /\ Cause e = VoteAccepted.
Proof.
  unfold isVoteAccepted. destruct err as [e|].
  - split.
    + intros Hv. exists e. split; [reflexivity|].
      destruct (Cause e); try discriminate. reflexivity.
    + intros (e' & [= <-] & ->). reflexivity.
  - split; [discriminate|]. intros (e & He & _). discriminate.
Qed.

(** X12: the vote of the gossip handler is yes exactly when the
    broadcaster is not paused and ReceiveTransaction returns an error whose
    cause, under its wrappers, is VoteAccepted. ReceiveTransaction is called
    once when the broadcaster is not paused and not at all when it is. The
    vote is the one message sent to the peer. *)
Theorem gossip_vote (node : Node) (peer : Peer) (tx : Transaction) :
  exists vote : bool,
    snd (handleGossipRequest node peer tx) = reply peer (GossipResponse vote) /\
    (sendFails peer = false ->
     outbox (snd (handleGossipRequest node peer tx)) =
       outbox peer ++ [GossipResponse vote]) /\
    (vote = true <->
     Paused node = false /\
     exists e, snd (ReceiveTransaction (ledger node) tx) = Some e /\
               Cause e = VoteAccepted) /\
    received (fst (handleGossipRequest node peer tx)) =
      (if Paused node then received node else received node ++ [tx]) /\
    ledger (fst (handleGossipRequest node peer tx)) =
      (if Paused node then ledger node
       else fst (ReceiveTransaction (ledger node) tx)).
Proof.
  unfold handleGossipRequest. destruct (Paused node).
  - exists false. cbn [fst snd]. split; [reflexivity|].
    split; [apply reply_outbox|]. split; [|split; reflexivity].
    split; [discriminate | intros [Hp _]; discriminate].
  - destruct (ReceiveTransaction (ledger node) tx) as [l err].
    exists (isVoteAccepted err). cbn [fst snd]. split; [reflexivity|].
    split; [apply reply_outbox|]. split; [|split; reflexivity].
    rewrite isVoteAccepted_cause. split; [intros Hv; split; [reflexivity | exact Hv]|].
    intros [_ Hv]. exact Hv.
Qed.

(** X13: when the broadcaster is not paused, the query handler hands the
    transaction to ReceiveTransaction once, and answers with that
    transaction if it was accepted; otherwise with the root the ledger had
    before the call if the transaction's view id is the ledger's minus one
    (as a uint64), and otherwise with what the ledger's resolver preferred
    before the call, which may be nothing. The answer is the one message
    sent to the peer. *)
Theorem query_reply (node : Node) (peer : Peer) (tx : Transaction) :
  Paused node = false ->
  handleQueryRequest node peer tx =
    (withLedger node (fst (ReceiveTransaction (ledger node) tx)) tx,
     reply peer
       (QueryResponse
          (if isVoteAccepted (snd (ReceiveTransaction (ledger node) tx)) then Some tx
           else if (ViewID tx =? (LedgerViewID (ledger node) + 2 ^ 64 - 1) mod 2 ^ 64)%N
                then Some (Root (ledger node))
                else Preferred (ledger node)))) /\
  (sendFails peer = false ->
   outbox (snd (handleQueryRequest node peer tx)) =
     outbox peer ++
     [QueryResponse
        (if isVoteAccepted (snd (ReceiveTransaction (ledger node) tx)) then Some tx
         else if (ViewID tx =? (LedgerViewID (ledger node) + 2 ^ 64 - 1) mod 2 ^ 64)%N
              then Some (Root (ledger node))
              else Preferred (ledger node))]) /\
  received (fst (handleQueryRequest node peer tx)) = received node ++ [tx].
Proof.
  intros Hp.
  assert (Hrun : handleQueryRequest node peer tx =
            (withLedger node (fst (ReceiveTransaction (ledger node) tx)) tx,
             reply peer
               (QueryResponse
                  (if isVoteAccepted (snd (ReceiveTransaction (ledger node) tx))
                   then Some tx
                   else if (ViewID tx =? (LedgerViewID (ledger node) + 2 ^ 64 - 1)
                                           mod 2 ^ 64)%N
                        then Some (Root (ledger node))
                        else Preferred (ledger node))))).
  { unfold handleQueryRequest. rewrite Hp.
    destruct (ReceiveTransaction (ledger node) tx) as [l err]. cbn [fst snd].
    unfold pred64.
    destruct (isVoteAccepted err); [reflexivity|].
    destruct (ViewID tx =? _)%N; [reflexivity|].
    destruct (Preferred (ledger node)); reflexivity. }
  rewrite Hrun. cbn [fst snd]. split; [reflexivity|].
  split; [apply reply_outbox | reflexivity].
Qed.

(** ** What the handlers keep along receiveLoop *)

Lemma serve_keeps (node : Node) (peer : Peer) (cache : lru) (req : request) :
  let node' := fst (fst (serve (node, peer, cache) req)) in
  Paused node' = Paused node /\
  (Paused node = true -> ledger node' = ledger node /\ received node' = received node) /\
  (exists more, recorded (syncer node') = more ++ recorded (syncer node)).
Proof.
  cbn zeta. destruct req; cbn [serve].
  - unfold handleGossipRequest. destruct (Paused node) eqn:Hp.
    + cbn. rewrite Hp. repeat split; try (exists []; reflexivity); auto.
    + destruct (ReceiveTransaction (ledger node) TX). cbn. rewrite Hp.
      repeat split; try discriminate; try (exists []; reflexivity); auto.
  - unfold handleQueryRequest. destruct (Paused node) eqn:Hp.
    + cbn. rewrite Hp. repeat split; try (exists []; reflexivity); auto.
    + destruct (ReceiveTransaction (ledger node) tx). cbn. rewrite Hp.
      repeat split; try discriminate; try (exists []; reflexivity); auto.
  - unfold handleSyncViewRequest, syncView.
    destruct (AssertValidTransaction root).
    + cbn. repeat split; try (exists []; reflexivity); auto.
    + destruct (resolverPreferred (syncer node)) as [q|] eqn:Hq.
      * cbn [bool_decide]. rewrite andb_false_r. cbn.
        repeat split; auto. eexists [_]. reflexivity.
      * destruct (LedgerViewID (ledger node) <? ViewID root)%N; cbn;
          repeat split; try discriminate; try (eexists [_]; reflexivity); auto.
  - destruct (handleSyncDiffMetadataRequest node peer viewID cache). cbn.
    repeat split; try (exists []; reflexivity); auto.
  - destruct (handleSyncDiffChunkRequest node peer chunkHash cache). cbn.
    repeat split; try (exists []; reflexivity); auto.
  - unfold handleSyncTransactionRequest. cbn.
    repeat split; try (exists []; reflexivity); auto.
Qed.

Lemma foldl_serve_keeps (reqs : list request) :
  forall (node : Node) (peer : Peer) (cache : lru),
  let node' := fst (fst (foldl serve (node, peer, cache) reqs)) in
  Paused node' = Paused node /\
  (Paused node = true -> ledger node' = ledger node /\ received node' = received node) /\
  (exists more, recorded (syncer node') = more ++ recorded (syncer node)).
Proof.
  induction reqs as [|req reqs IH]; intros node peer cache; cbn zeta; cbn [foldl].
  - repeat split; auto. exists []. reflexivity.
  - pose proof (serve_keeps node peer cache req) as Hstep. cbn zeta in Hstep.
    destruct (serve (node, peer, cache) req) as [[node1 peer1] cache1].
    cbn [fst] in Hstep. destruct Hstep as (Hp1 & Hl1 & [more1 Hr1]).
    destruct (IH node1 peer1 cache1) as (Hp & Hl & [more Hr]).
    split; [congruence|]. split.
    + intros Hpaused. destruct (Hl1 Hpaused) as [Ha Hb].
      destruct Hl as [Hc Hd]; [congruence|]. split; congruence.
    + exists (more ++ more1). rewrite Hr, Hr1, app_assoc. reflexivity.
Qed.

(** X14: while the broadcaster is paused, no sequence of requests of a
    peer changes the ledger: ReceiveTransaction is never called, and the
    handlers do not change the pause. *)
Theorem paused_node_receives_nothing
    (node : Node) (peer : Peer) (reqs : list request) :
  Paused node = true ->
  let node' := fst (fst (receiveLoop node peer reqs)) in
  Paused node' = true /\ ledger node' = ledger node /\ received node' = received node.
Proof.
  intros Hp. cbn zeta. unfold receiveLoop.
  destruct (foldl_serve_keeps reqs node peer (newLRU 1024)) as (Hp' & Hl & _).
  destruct (Hl Hp) as [Ha Hb]. repeat split; congruence.
Qed.

(** ** The chunks of a diff, exactly *)

Lemma slice_take (size : nat) (diff : list byte) (i : nat) :
  (i < length diff)%nat ->
  slice diff i (if (length diff <? i + size)%nat then length diff else (i + size)%nat)
    = take size (drop i diff).
Proof.
  intros Hi. unfold slice.
  destruct (length diff <? i + size)%nat eqn:Hlt.
  - apply Nat.ltb_lt in Hlt.
    rewrite !take_ge by (rewrite length_drop; lia). reflexivity.
  - replace (i + size - i)%nat with size by lia. reflexivity.
Qed.

Lemma chunkLoop_exact (size : nat) (diff : list byte) :
  (0 < size)%nat ->
  forall (fuel j : nat) (cache : lru) (hashes : list (list byte)),
  (length diff <= j * size + fuel)%nat ->
  exists chunks : list (list byte),
    chunkLoop size fuel diff (j * size) cache hashes =
      (foldl putChunk cache chunks, hashes ++ map Sum256 chunks) /\
    (forall (k : nat) (c : list byte),
       chunks !! k = Some c -> c = take size (drop ((j + k) * size) diff)) /\
    (length diff <= (j + length chunks) * size)%nat /\
    (chunks <> [] -> ((j + length chunks - 1) * size < length diff)%nat) /\
    ((j * size < length diff)%nat -> chunks <> []).
Proof.
  intros Hsize. induction fuel as [|fuel IH]; intros j cache hashes Hfuel.
  - exists []. simpl. rewrite app_nil_r. repeat split; try lia; try congruence.
    intros k c Hk. discriminate.
  - cbn [chunkLoop]. destruct (j * size <? length diff)%nat eqn:Hi.
    + apply Nat.ltb_lt in Hi. rewrite (slice_take size diff (j * size) Hi).
      replace (j * size + size)%nat with (S j * size)%nat by lia.
      set (c := take size (drop (j * size) diff)).
      destruct (IH (S j) (put cache (Sum256 c) c) (hashes ++ [Sum256 c]))
        as (chunks & Hloop & Hat & Hcover & Hlast & _); [lia|].
      exists (c :: chunks). split; [|split; [|split; [|split]]].
      * rewrite Hloop. simpl. rewrite <- app_assoc. reflexivity.
      * intros [|k] c' Hk.
        -- injection Hk as <-. replace (j + 0)%nat with j by lia. reflexivity.
        -- replace (j + S k)%nat with (S j + k)%nat by lia. exact (Hat k c' Hk).
      * cbn [length]. replace (j + S (length chunks))%nat
          with (S j + length chunks)%nat by lia. exact Hcover.
      * intros _. cbn [length]. destruct chunks as [|c0 chunks].
        -- cbn [length]. replace (j + 1 - 1)%nat with j by lia. exact Hi.
        -- replace (j + S (length (c0 :: chunks)) - 1)%nat
             with (S j + length (c0 :: chunks) - 1)%nat by lia.
           apply Hlast. discriminate.
      * intros _. discriminate.
    + apply Nat.ltb_ge in Hi. exists []. simpl. rewrite app_nil_r.
      repeat split; try lia; try congruence.
      intros k c Hk. discriminate.
Qed.

(** X16: the metadata handler cuts the diff at the multiples of the chunk
    size: chunk [k] is the bytes from [k * 1048576] up to the next multiple
    or the end of the diff, so every chunk but the last has exactly the
    chunk size and their number is the length of the diff divided by the
    chunk size, rounded up. An empty diff gives no hash and leaves the cache
    as it was. The hashes of these chunks, in order, are the message sent to
    the peer. *)
Theorem metadata_chunks_exact
    (node : Node) (peer : Peer) (viewID : N) (cache : lru) :
  exists chunks : list (list byte),
    handleSyncDiffMetadataRequest node peer viewID cache =
      (foldl putChunk cache chunks,
       reply peer (SyncDiffMetadataResponse (LedgerViewID (ledger node))
                     (map Sum256 chunks))) /\
    (sendFails peer = false ->
     outbox (snd (handleSyncDiffMetadataRequest node peer viewID cache)) =
       outbox peer ++
       [SyncDiffMetadataResponse (LedgerViewID (ledger node)) (map Sum256 chunks)]) /\
    (forall (k : nat) (c : list byte),
       chunks !! k = Some c ->
       c = take syncChunkSize (drop (k * syncChunkSize) (DumpDiff (ledger node) viewID))) /\
    (DumpDiff (ledger node) viewID = [] -> chunks = []) /\
    (DumpDiff (ledger node) viewID <> [] ->
     ((length chunks - 1) * syncChunkSize < length (DumpDiff (ledger node) viewID)
      <= length chunks * syncChunkSize)%nat) /\
    Z.of_nat syncChunkSize = 1048576%Z.
Proof.
  assert (Hsize : (0 < syncChunkSize)%nat) by (unfold syncChunkSize; lia).
  destruct (chunkLoop_exact syncChunkSize (DumpDiff (ledger node) viewID) Hsize
              (length (DumpDiff (ledger node) viewID)) 0 cache [])
    as (chunks & Hloop & Hat & Hcover & Hlast & Hsome); [lia|].
  assert (Hrun : handleSyncDiffMetadataRequest node peer viewID cache =
            (foldl putChunk cache chunks,
             reply peer (SyncDiffMetadataResponse (LedgerViewID (ledger node))
                           (map Sum256 chunks)))).
  { unfold handleSyncDiffMetadataRequest, syncDiffMetadata.
    change (0 * syncChunkSize)%nat with 0%nat in Hloop. rewrite Hloop. reflexivity. }
  exists chunks. rewrite Hrun. cbn [snd]. split; [|split; [|split; [|split; [|split]]]].
  - reflexivity.
  - apply reply_outbox.
  - intros k c Hk. exact (Hat k c Hk).
  - intros Hempty. destruct chunks as [|c chunks]; [reflexivity|].
    exfalso. assert (Hne : c :: chunks <> []) by discriminate.
    specialize (Hlast Hne). rewrite Hempty in Hlast. simpl in Hlast. lia.
  - intros Hne. assert (Hpos : (0 * syncChunkSize < length (DumpDiff (ledger node) viewID))%nat).
    { destruct (DumpDiff (ledger node) viewID); [congruence | simpl; lia]. }
    specialize (Hlast (Hsome Hpos)). cbn [Nat.add] in Hlast, Hcover. lia.
  - apply syncChunkSize_value.
Qed.

(** ** The chunks that were announced are in the cache *)

Lemma find_app_found (key : list byte) (p r : list (list byte * list byte)) :
  is_Some (find key p) -> find key (p ++ r) = find key p.
Proof.
  induction p as [|[k v] p IH]; simpl.
  - intros [x Hx]. discriminate.
  - destruct (decide (k = key)); [reflexivity | exact IH].
Qed.

Lemma find_without (key h : list byte) (l : list (list byte * list byte)) :
  key <> h -> find key (without h l) = find key l.
Proof.
  intros Hne. unfold without. induction l as [|[k v] l IH]; [reflexivity|].
  destruct (decide (k = h)) as [->|Hk].
  - rewrite filter_cons_False by (simpl; intros Hn; apply Hn; reflexivity).
    simpl. destruct (decide (h = key)); [congruence | exact IH].
  - rewrite filter_cons_True by exact Hk. simpl. rewrite IH. reflexivity.
Qed.

Lemma capacity_foldl_put (chunks : list (list byte)) :
  forall cache : lru, capacity (foldl putChunk cache chunks) = capacity cache.
Proof.
  induction chunks as [|c chunks IH]; intros cache; simpl; [reflexivity|].
  rewrite IH. reflexivity.
Qed.

Lemma foldl_put_found (chunks : list (list byte)) :
  forall cache : lru,
  (length chunks <= capacity cache)%nat ->
  exists p r : list (list byte * list byte),
    entries (foldl putChunk cache chunks) = p ++ r /\
    (length p <= length chunks)%nat /\
    forall c : list byte, c ∈ chunks -> is_Some (find (Sum256 c) p).
Proof.
  induction chunks as [|c chunks IH] using rev_ind; intros cache Hcap.
  - exists [], (entries cache). repeat split; [simpl; lia|].
    intros c Hc. inversion Hc.
  - rewrite length_app in Hcap. cbn [length] in Hcap.
    destruct (IH cache) as (p & r & Hent & Hlen & Hfound); [lia|].
    rewrite foldl_app. cbn [foldl]. unfold putChunk at 1, put. cbn [entries].
    rewrite capacity_foldl_put, Hent.
    unfold without at 1. rewrite filter_app. fold (without (Sum256 c) p).
    fold (without (Sum256 c) r).
    assert (Hp : (length (without (Sum256 c) p) <= length p)%nat)
      by (unfold without; apply length_filter).
    exists ((Sum256 c, c) :: without (Sum256 c) p),
           (take (capacity cache - S (length (without (Sum256 c) p)))
              (without (Sum256 c) r)).
    split; [|split].
    + change ((Sum256 c, c) :: without (Sum256 c) p ++ without (Sum256 c) r)
        with (((Sum256 c, c) :: without (Sum256 c) p) ++ without (Sum256 c) r).
      rewrite take_app_ge by (cbn [length]; lia). reflexivity.
    + rewrite length_app. cbn [length]. lia.
    + intros c0 Hc0. cbn [find].
      destruct (decide (Sum256 c = Sum256 c0)) as [E|Hne]; [eexists; reflexivity|].
      apply elem_of_app in Hc0 as [Hc0|Hc0].
      * rewrite find_without by congruence. exact (Hfound c0 Hc0).
      * apply elem_of_cons in Hc0 as [->|Hc0]; [congruence | inversion Hc0].
Qed.


End NodeMoreFacts.

(** * Properties of the request context *)

Section ApiFacts.
Import api.

(** X18: requireHeader returns the first value of the first of the given
    names that has one in the request's header, and the error
    ErrHeaderNotFound exactly when none of the names has a value; a name
    whose list of values is empty counts as absent. *)
Theorem requireHeader_first_value
    (header : gmap string (list string)) (names : list string) :
  match requireHeader header names with
  | inl value =>
      exists (before : list string) (name : string) (after values : list string),
        names = before ++ name :: after /\
        Forall (noValue header) before /\
        header !! name = Some (value :: values)
  | inr err => err = ErrHeaderNotFound /\ Forall (noValue header) names
  end.
Proof.
  induction names as [|name names IH]; cbn [requireHeader].
  - split; [reflexivity | constructor].
  - destruct (header !! name) as [[|value values]|] eqn:Hname.
    + destruct (requireHeader header names) as [v|e].
      * destruct IH as (before & n & after & vs & -> & Hbefore & Hn).
        exists (name :: before), n, after, vs. repeat split; [|exact Hn].
        constructor; [right; exact Hname | exact Hbefore].
      * destruct IH as [-> Hall]. split; [reflexivity|].
        constructor; [right; exact Hname | exact Hall].
    + exists [], name, names, values. repeat split; [constructor | exact Hname].
    + destruct (requireHeader header names) as [v|e].
      * destruct IH as (before & n & after & vs & -> & Hbefore & Hn).
        exists (name :: before), n, after, vs. repeat split; [|exact Hn].
        constructor; [left; exact Hname | exact Hbefore].
      * destruct IH as [-> Hall]. split; [reflexivity|].
        constructor; [left; exact Hname | exact Hall].
Qed.

Example requireHeader_order :
  requireHeader {[ "X-Session-Token" := []; "Sec-Websocket-Protocol" := ["abc"; "def"] ]}
    ["X-Session-Token"; "Sec-Websocket-Protocol"] = inl "abc" /\
  requireHeader {[ "Sec-Websocket-Protocol" := ["abc"] ]} ["X-Session-Token"]
    = inr ErrHeaderNotFound.
Proof. split; reflexivity. Qed.

End ApiFacts.

(** ** More runs of the handlers *)

Section NodeMoreRuns.
Import node.

Lemma query_reply_witness :
  outbox (snd (handleQueryRequest (viewNode acceptAll false) somePeer peerRoot)) =
    [QueryResponse (Some peerRoot)] /\
  outbox (snd (handleQueryRequest (diffNode false None) somePeer peerRoot)) =
    [QueryResponse None] /\
  received (fst (handleQueryRequest (diffNode false None) somePeer peerRoot)) = [peerRoot].
Proof.
  destruct (query_reply (H:=viewAPI acceptAll) (viewNode acceptAll false) somePeer peerRoot
              eq_refl) as (_ & Hout & _).
  destruct (query_reply (H:=diffAPI) (diffNode false None) somePeer peerRoot eq_refl)
    as (_ & Hout' & Hrecv).
  split; [exact (Hout eq_refl)|]. split; [exact (Hout' eq_refl) | exact Hrecv].
Defined.

Lemma paused_node_receives_nothing_witness :
  received
    (fst (fst (receiveLoop (H0:=identityHash) (viewNode acceptAll true) somePeer
                 [GossipRequest peerRoot; QueryRequest peerRoot; SyncViewRequest peerRoot])))
    = [] /\
  received
    (fst (fst (receiveLoop (H0:=identityHash) (viewNode acceptAll false) somePeer
                 [GossipRequest peerRoot; QueryRequest peerRoot; SyncViewRequest peerRoot])))
    = [peerRoot; peerRoot].
Proof.
  destruct (paused_node_receives_nothing (H:=viewAPI acceptAll) (H0:=identityHash)
              (viewNode acceptAll true) somePeer
              [GossipRequest peerRoot; QueryRequest peerRoot; SyncViewRequest peerRoot]
              eq_refl) as (_ & _ & Hrecv).
  split; [exact Hrecv | reflexivity].
Defined.


End NodeMoreRuns.
